(** * Receipto: the persisted schema and the upload dropzone

    A shallow embedding of
    - [db/init.sql] and [api/migrations/001_settings_tables.sql]: the four
      tables, their column types, defaults and constraints, the seed
      statements and the [update_updated_at_column] trigger;
    - [frontend/components/receipt-dropzone.tsx]: the [onDrop] callback, the
      options handed to [useDropzone] and [formatFileSize].

    SQL values are nullable, so every column is an [option]; a constraint is
    a check made when a row is written, and what it guarantees about the
    stored rows is proved, not assumed. *)

From Stdlib Require Import ZArith List String Ascii Bool Lia DecimalString.
Import ListNotations.

Local Open Scope string_scope.
Local Open Scope list_scope.
Local Open Scope Z_scope.

(** ** SQL values, errors and column types *)

Module Sql.

(** The SQLSTATE classes the schema can raise. *)
Inductive sql_error : Type :=
| not_null_violation
| unique_violation
| check_violation
| foreign_key_violation
| string_data_right_truncation
| numeric_value_out_of_range.

Inductive result (A : Type) : Type :=
| Ok (a : A)
| Err (e : sql_error).
Arguments Ok {A} a.
Arguments Err {A} e.

Definition bind {A B : Type} (m : result A) (k : A -> result B) : result B :=
  match m with
  | Ok a => k a
  | Err e => Err e
  end.

Definition is_ok {A : Type} (m : result A) : bool :=
  match m with Ok _ => true | Err _ => false end.

(** UUID: a 128-bit number.  TIMESTAMP: microseconds.  DATE: days.
    DECIMAL(10,2): the value in hundredths. *)
Definition uuid : Type := N.
Definition timestamp : Type := Z.
Definition date : Type := Z.
Definition decimal : Type := Z.

(** What a statement reads from the server while it runs:
    [CURRENT_TIMESTAMP] and the successive results of [uuid_generate_v4()]
    (or [gen_random_uuid()]), numbered by the row they are evaluated for. *)
Record env : Type := mk_env {
  CURRENT_TIMESTAMP : timestamp;
  uuid_generate_v4 : nat -> uuid
}.

(** A column of an INSERT: left out of the column list (or DEFAULT), or
    given a value, which may be NULL. *)
Inductive col (A : Type) : Type :=
| DEFAULT
| VALUE (v : option A).
Arguments DEFAULT {A}.
Arguments VALUE {A} v.

Definition with_default {A : Type} (d : option A) (c : col A) : option A :=
  match c with
  | DEFAULT => d
  | VALUE v => v
  end.

Fixpoint all_spaces (s : string) : bool :=
  match s with
  | EmptyString => true
  | String c s' => Ascii.eqb c " "%char && all_spaces s'
  end.

(** Assignment to a VARCHAR(n) column: a longer string is an error, unless
    the excess is all spaces, in which case it is cut to [n] characters. *)
Definition varchar (n : nat) (s : string) : result string :=
  if Nat.leb (String.length s) n then Ok s
  else if all_spaces (substring n (String.length s - n) s)
       then Ok (substring 0 n s)
       else Err string_data_right_truncation.

(** DECIMAL(10,2): at most eight digits before the point. *)
Definition decimal_10_2 (x : decimal) : result decimal :=
  if Z.abs x <? 10 ^ 10 then Ok x else Err numeric_value_out_of_range.

(** INTEGER: four bytes, signed. *)
Definition integer (x : Z) : result Z :=
  if (- 2 ^ 31 <=? x) && (x <? 2 ^ 31) then Ok x
  else Err numeric_value_out_of_range.

Definition nullable {A B : Type} (f : A -> result B) (v : option A)
  : result (option B) :=
  match v with
  | None => Ok None
  | Some a => bind (f a) (fun b => Ok (Some b))
  end.

Definition not_null {A : Type} (v : option A) : result A :=
  match v with
  | None => Err not_null_violation
  | Some a => Ok a
  end.

(** [x IN (l)] in three-valued logic: NULL when [x] is NULL. *)
Definition sql_in (x : option string) (l : list string) : option bool :=
  match x with
  | None => None
  | Some s => Some (existsb (String.eqb s) l)
  end.

(** A CHECK constraint is violated only when its expression is false; it is
    satisfied when the expression is true or NULL. *)
Definition check_constraint (b : option bool) : result unit :=
  match b with
  | Some false => Err check_violation
  | _ => Ok tt
  end.

(** Equality of two column values as a unique index sees it: two NULLs never
    conflict. *)
Definition same {A : Type} (eqb : A -> A -> bool) (x y : option A) : bool :=
  match x, y with
  | Some a, Some b => eqb a b
  | _, _ => false
  end.

End Sql.
Import Sql.

Declare Scope sql_scope.
Notation "x <- m ;; k" := (bind m (fun x => k))
  (at level 61, m at next level, right associativity) : sql_scope.
Local Open Scope sql_scope.

(** ** Tables: what INSERT, UPDATE and DELETE do to any of them *)

Section Table.
Context {row : Type}.
(** What a proposed row must pass to be stored: the coercion of its values
    to the column types, then NOT NULL and CHECK. *)
Variable check : row -> result row.
(** The unique indexes: do two rows collide on one of them. *)
Variable conflicts : row -> row -> bool.
(** The REFERENCES clauses: does the row written have its parent. *)
Variable references : row -> bool.

Fixpoint unique (rows : list row) : bool :=
  match rows with
  | [] => true
  | r :: rest => negb (existsb (conflicts r) rest) && unique rest
  end.

(** INSERT, one row: the row is checked, then entered in the unique
    indexes, then its foreign key is looked up. *)
Definition insert_row (r : row) (rows : list row) : result (list row) :=
  r' <- check r ;;
  if existsb (conflicts r') rows then Err unique_violation
  else if references r' then Ok (rows ++ [r'])
       else Err foreign_key_violation.

(** INSERT ... ON CONFLICT (arbiter) DO NOTHING, one row: skipped when it
    collides on the arbiter index, an error when it collides on another. *)
Definition insert_row_do_nothing (arbiter : row -> row -> bool) (r : row)
    (rows : list row) : result (list row) :=
  r' <- check r ;;
  if existsb (arbiter r') rows then Ok rows
  else if existsb (conflicts r') rows then Err unique_violation
  else if references r' then Ok (rows ++ [r'])
       else Err foreign_key_violation.

Fixpoint each (f : row -> result row) (rows : list row)
  : result (list row) :=
  match rows with
  | [] => Ok []
  | r :: rest =>
      r' <- f r ;;
      rest' <- each f rest ;;
      Ok (r' :: rest')
  end.

(** The row an UPDATE proposes in place of [r]: the SET clause builds NEW
    from the old row and its values are coerced to the column types; the
    BEFORE UPDATE row trigger may then change NEW; NOT NULL and CHECK are
    tested on what the trigger returns. *)
Definition updated (coerce constrain : row -> result row)
    (trigger set : row -> row) (r : row) : result row :=
  c <- coerce (set r) ;;
  constrain (trigger c).

(** Did the rows an UPDATE wrote keep their parents. *)
Definition written_referenced (where_ : row -> bool)
    (rows rows' : list row) : bool :=
  forallb (fun rr => implb (where_ (fst rr)) (references (snd rr)))
          (combine rows rows').

(** UPDATE ... SET ... WHERE ...: each row the WHERE clause selects is
    replaced by what [rewrite_] makes of it; then the unique indexes are
    checked, and last the foreign keys of the rows written.  The unique
    indexes are checked on the statement's result: PostgreSQL checks them
    row by row, in the physical order of the rows, and so rejects some
    statements (a swap of two keys) that pass here; it accepts none that
    fail here. *)
Definition update_rows (rewrite_ : row -> result row)
    (where_ : row -> bool) (rows : list row) : result (list row) :=
  rows' <- each (fun r => if where_ r then rewrite_ r else Ok r) rows ;;
  if unique rows'
  then if written_referenced where_ rows rows' then Ok rows'
       else Err foreign_key_violation
  else Err unique_violation.

Definition delete_rows (where_ : row -> bool) (rows : list row) : list row :=
  filter (fun r => negb (where_ r)) rows.
End Table.

(** ** [receipts] (db/init.sql, lines 7-17 and 61-72) *)

Module Receipts.

Record row : Type := mk_row {
  id : option uuid;
  image_url : option string;
  merchant_name : option string;
  purchase_date : option date;
  total_amount : option decimal;
  tax_amount : option decimal;
  status : option string;
  created_at : option timestamp;
  updated_at : option timestamp
}.

(** The columns of an INSERT INTO receipts. *)
Record values : Type := mk_values {
  v_id : col uuid;
  v_image_url : col string;
  v_merchant_name : col string;
  v_purchase_date : col date;
  v_total_amount : col decimal;
  v_tax_amount : col decimal;
  v_status : col string;
  v_created_at : col timestamp;
  v_updated_at : col timestamp
}.

Definition statuses : list string := ["pending"; "complete"; "manual_review"].

(** The row an INSERT proposes: each column its value or its DEFAULT, and
    NULL where the table declares none. *)
Definition new_row (e : env) (v : values) : row :=
  {| id := with_default (Some (uuid_generate_v4 e 0)) (v_id v);
     image_url := with_default None (v_image_url v);
     merchant_name := with_default None (v_merchant_name v);
     purchase_date := with_default None (v_purchase_date v);
     total_amount := with_default None (v_total_amount v);
     tax_amount := with_default None (v_tax_amount v);
     status := with_default (Some "pending") (v_status v);
     created_at := with_default (Some (CURRENT_TIMESTAMP e)) (v_created_at v);
     updated_at := with_default (Some (CURRENT_TIMESTAMP e)) (v_updated_at v)
  |}.

(** The values of a proposed row are first coerced to the column types,
    column by column in the order of the table; NULL fits every type. *)
Definition coerce (r : row) : result row :=
  u <- nullable (varchar 512) (image_url r) ;;
  m <- nullable (varchar 255) (merchant_name r) ;;
  t <- nullable decimal_10_2 (total_amount r) ;;
  x <- nullable decimal_10_2 (tax_amount r) ;;
  s <- nullable (varchar 50) (status r) ;;
  Ok {| id := id r; image_url := u; merchant_name := m;
        purchase_date := purchase_date r; total_amount := t;
        tax_amount := x; status := s;
        created_at := created_at r; updated_at := updated_at r |}.

(** Then the constraints: NOT NULL (the primary key, [image_url]), then the
    CHECK on [status]. *)
Definition constrain (r : row) : result row :=
  _ <- not_null (id r) ;;
  _ <- not_null (image_url r) ;;
  _ <- check_constraint (sql_in (status r) statuses) ;;
  Ok r.

Definition check (r : row) : result row :=
  c <- coerce r ;;
  constrain c.

(** PRIMARY KEY (id). *)
Definition conflicts (a b : row) : bool := same N.eqb (id a) (id b).

(** [update_updated_at_column()], the BEFORE UPDATE row trigger:
    [NEW.updated_at = CURRENT_TIMESTAMP; RETURN NEW]. *)
Definition update_updated_at_column (e : env) (NEW : row) : row :=
  {| id := id NEW; image_url := image_url NEW;
     merchant_name := merchant_name NEW; purchase_date := purchase_date NEW;
     total_amount := total_amount NEW; tax_amount := tax_amount NEW;
     status := status NEW; created_at := created_at NEW;
     updated_at := Some (CURRENT_TIMESTAMP e) |}.

End Receipts.

(** ** [line_items] (db/init.sql, lines 20-29) *)

Module LineItems.

Record row : Type := mk_row {
  id : option uuid;
  receipt_id : option uuid;
  description : option string;
  category : option string;
  quantity : option Z;
  unit_price : option decimal;
  total_price : option decimal;
  created_at : option timestamp
}.

Record values : Type := mk_values {
  v_id : col uuid;
  v_receipt_id : col uuid;
  v_description : col string;
  v_category : col string;
  v_quantity : col Z;
  v_unit_price : col decimal;
  v_total_price : col decimal;
  v_created_at : col timestamp
}.

Definition new_row (e : env) (v : values) : row :=
  {| id := with_default (Some (uuid_generate_v4 e 0)) (v_id v);
     receipt_id := with_default None (v_receipt_id v);
     description := with_default None (v_description v);
     category := with_default None (v_category v);
     quantity := with_default (Some 1) (v_quantity v);
     unit_price := with_default None (v_unit_price v);
     total_price := with_default None (v_total_price v);
     created_at := with_default (Some (CURRENT_TIMESTAMP e)) (v_created_at v)
  |}.

Definition coerce (r : row) : result row :=
  d <- nullable (varchar 255) (description r) ;;
  c <- nullable (varchar 100) (category r) ;;
  q <- nullable integer (quantity r) ;;
  u <- nullable decimal_10_2 (unit_price r) ;;
  t <- nullable decimal_10_2 (total_price r) ;;
  Ok {| id := id r; receipt_id := receipt_id r; description := d;
        category := c; quantity := q; unit_price := u; total_price := t;
        created_at := created_at r |}.

(** NOT NULL: the primary key and [receipt_id].  The table has no CHECK. *)
Definition constrain (r : row) : result row :=
  _ <- not_null (id r) ;;
  _ <- not_null (receipt_id r) ;;
  Ok r.

Definition check (r : row) : result row :=
  c <- coerce r ;;
  constrain c.

(** PRIMARY KEY (id). *)
Definition conflicts (a b : row) : bool := same N.eqb (id a) (id b).

(** [receipt_id REFERENCES receipts(id)]: the row points at [p]. *)
Definition child_of (p : Receipts.row) (r : row) : bool :=
  same N.eqb (Receipts.id p) (receipt_id r).

(** The foreign key is satisfied by a NULL [receipt_id] (MATCH SIMPLE) or by
    a receipt with that id. *)
Definition references (parents : list Receipts.row) (r : row) : bool :=
  match receipt_id r with
  | None => true
  | Some _ => existsb (fun p => child_of p r) parents
  end.

End LineItems.

(** ** [categories] (db/init.sql, lines 32-52, and the migration, lines 6-38) *)

Module Categories.

(** The migration's table has an [updated_at] column and init.sql's has
    none; CREATE TABLE IF NOT EXISTS keeps whichever was created first.  In
    a table created by init.sql the column reads NULL here. *)
Record row : Type := mk_row {
  id : option uuid;
  name : option string;
  monthly_budget_limit : option decimal;
  created_at : option timestamp;
  updated_at : option timestamp
}.

(** One row of [INSERT INTO categories (name, monthly_budget_limit)], the
    [n]-th of its statement. *)
Definition new_row (e : env) (has_updated_at : bool) (n : nat)
    (v : string * option decimal) : row :=
  {| id := Some (uuid_generate_v4 e n);
     name := Some (fst v);
     monthly_budget_limit := snd v;
     created_at := Some (CURRENT_TIMESTAMP e);
     updated_at := if has_updated_at then Some (CURRENT_TIMESTAMP e)
                   else None |}.

Fixpoint new_rows (e : env) (has_updated_at : bool) (n : nat)
    (vs : list (string * option decimal)) : list row :=
  match vs with
  | [] => []
  | v :: rest =>
      new_row e has_updated_at n v :: new_rows e has_updated_at (S n) rest
  end.

Definition coerce (r : row) : result row :=
  n <- nullable (varchar 100) (name r) ;;
  b <- nullable decimal_10_2 (monthly_budget_limit r) ;;
  Ok {| id := id r; name := n; monthly_budget_limit := b;
        created_at := created_at r; updated_at := updated_at r |}.

(** NOT NULL: the primary key and [name]. *)
Definition constrain (r : row) : result row :=
  _ <- not_null (id r) ;;
  _ <- not_null (name r) ;;
  Ok r.

Definition check (r : row) : result row :=
  c <- coerce r ;;
  constrain c.

(** UNIQUE (name), the arbiter of ON CONFLICT (name). *)
Definition same_name (a b : row) : bool := same String.eqb (name a) (name b).

(** PRIMARY KEY (id) and UNIQUE (name). *)
Definition conflicts (a b : row) : bool :=
  same N.eqb (id a) (id b) || same_name a b.

(** The VALUES of init.sql, lines 40-51. *)
Definition init_seed : list (string * option decimal) :=
  [ ("Groceries", Some 40000); ("Dining", Some 30000);
    ("Transportation", Some 20000); ("Utilities", Some 25000);
    ("Entertainment", Some 15000); ("Healthcare", Some 20000);
    ("Clothing", Some 15000); ("Home & Garden", Some 10000);
    ("Personal Care", Some 10000); ("Shopping", Some 20000);
    ("Other", Some 10000) ].

(** The VALUES of the migration, lines 26-37. *)
Definition migration_seed : list (string * option decimal) :=
  [ ("Groceries", None); ("Dining", None); ("Transportation", None);
    ("Utilities", None); ("Entertainment", None); ("Healthcare", None);
    ("Clothing", None); ("Home & Garden", None); ("Personal Care", None);
    ("Shopping", None); ("Other", None) ].

Definition find_by_name (n : string) (rows : list row) : option row :=
  find (fun r => same String.eqb (Some n) (name r)) rows.

End Categories.

(** ** [settings] (the migration, lines 14-23 and 40-45) *)

Module Settings.

Record row : Type := mk_row {
  key : option string;
  value : option string;
  encrypted : option bool;
  updated_at : option timestamp
}.

(** One row of [INSERT INTO settings (key, value, encrypted)]. *)
Definition new_row (e : env) (v : string * string * bool) : row :=
  {| key := Some (fst (fst v));
     value := Some (snd (fst v));
     encrypted := Some (snd v);
     updated_at := Some (CURRENT_TIMESTAMP e) |}.

(** [value] is TEXT: no length limit. *)
Definition coerce (r : row) : result row :=
  k <- nullable (varchar 100) (key r) ;;
  Ok {| key := k; value := value r; encrypted := encrypted r;
        updated_at := updated_at r |}.

(** NOT NULL: the primary key and [value]. *)
Definition constrain (r : row) : result row :=
  _ <- not_null (key r) ;;
  _ <- not_null (value r) ;;
  Ok r.

Definition check (r : row) : result row :=
  c <- coerce r ;;
  constrain c.

(** PRIMARY KEY (key). *)
Definition conflicts (a b : row) : bool := same String.eqb (key a) (key b).

(** The VALUES of the migration, lines 42-44. *)
Definition seed : list (string * string * bool) :=
  [ ("llm_provider", "gemini", false);
    ("llm_model", "gemini-2.0-flash", false);
    ("theme", "system", false) ].

Definition find_by_key (k : string) (rows : list row) : option row :=
  find (fun r => same String.eqb (Some k) (key r)) rows.

(** Modelled from the spec: the Settings Store's [set(key, value,
    encrypted=false)], whose code is not among the sources.  The spec says
    it "is an upsert keyed by key; last write wins; updated_at timestamp
    refreshed": the row is written as by the migration's INSERT, and on a
    conflict on the primary key the stored row takes the new value, flag
    and timestamp. *)
Definition set (e : env) (k v : string) (enc : bool) (rows : list row)
  : result (list row) :=
  r <- check (new_row e (k, v, enc)) ;;
  if existsb (conflicts r) rows
  then Ok (map (fun x => if conflicts r x then r else x) rows)
  else Ok (rows ++ [r]).

End Settings.

(** ** The store and its statements *)

Record db : Type := mk_db {
  receipts : list Receipts.row;
  line_items : list LineItems.row;
  categories : list Categories.row;
  (** the [categories] table is the migration's *)
  categories_has_updated_at : bool;
  settings : list Settings.row
}.

Definition empty_db (migration_first : bool) : db :=
  {| receipts := []; line_items := []; categories := [];
     categories_has_updated_at := migration_first; settings := [] |}.

Inductive statement : Type :=
| INSERT_receipts (v : Receipts.values)
| UPDATE_receipts (set : Receipts.row -> Receipts.row)
                  (where_ : Receipts.row -> bool)
| DELETE_receipts (where_ : Receipts.row -> bool)
| INSERT_line_items (v : LineItems.values)
| UPDATE_line_items (set : LineItems.row -> LineItems.row)
                    (where_ : LineItems.row -> bool)
| DELETE_line_items (where_ : LineItems.row -> bool)
| INSERT_categories_DO_NOTHING (vs : list (string * option decimal))
| UPDATE_categories (set : Categories.row -> Categories.row)
                    (where_ : Categories.row -> bool)
| INSERT_settings_DO_NOTHING (vs : list (string * string * bool))
| SET_setting (k v : string) (enc : bool).

Definition no_trigger {row : Type} (NEW : row) : row := NEW.
Definition no_references {row : Type} (r : row) : bool := true.

Fixpoint insert_rows_do_nothing {row : Type} (check : row -> result row)
    (conflicts arbiter : row -> row -> bool) (rs : list row)
    (rows : list row) : result (list row) :=
  match rs with
  | [] => Ok rows
  | r :: rest =>
      rows' <- insert_row_do_nothing check conflicts no_references
                 arbiter r rows ;;
      insert_rows_do_nothing check conflicts arbiter rest rows'
  end.

(** The receipts an UPDATE or DELETE with this WHERE clause touches. *)
Definition touched (where_ : Receipts.row -> bool) (d : db)
  : list Receipts.row :=
  filter where_ (receipts d).

Definition children (ps : list Receipts.row) (r : LineItems.row) : bool :=
  existsb (fun p => LineItems.child_of p r) ps.

Definition with_receipts (d : db) (rs : list Receipts.row) : db :=
  {| receipts := rs; line_items := line_items d;
     categories := categories d;
     categories_has_updated_at := categories_has_updated_at d;
     settings := settings d |}.

Definition with_line_items (d : db) (ls : list LineItems.row) : db :=
  {| receipts := receipts d; line_items := ls;
     categories := categories d;
     categories_has_updated_at := categories_has_updated_at d;
     settings := settings d |}.

Definition with_categories (d : db) (cs : list Categories.row) : db :=
  {| receipts := receipts d; line_items := line_items d;
     categories := cs;
     categories_has_updated_at := categories_has_updated_at d;
     settings := settings d |}.

Definition with_settings (d : db) (ss : list Settings.row) : db :=
  {| receipts := receipts d; line_items := line_items d;
     categories := categories d;
     categories_has_updated_at := categories_has_updated_at d;
     settings := ss |}.

(** One statement, from the state before it to the state after it, or the
    error that aborts it. *)
Definition exec (e : env) (s : statement) (d : db) : result db :=
  match s with
  | INSERT_receipts v =>
      rs <- insert_row Receipts.check Receipts.conflicts no_references
              (Receipts.new_row e v) (receipts d) ;;
      Ok (with_receipts d rs)
  | UPDATE_receipts set where_ =>
      rs <- update_rows Receipts.conflicts no_references
              (updated Receipts.coerce Receipts.constrain
                       (Receipts.update_updated_at_column e) set)
              where_ (receipts d) ;;
      (* line_items.receipt_id REFERENCES receipts(id), ON UPDATE NO ACTION:
         a line item of an updated receipt must still have a parent. *)
      if forallb (fun li => implb (children (touched where_ d) li)
                                  (LineItems.references rs li))
                 (line_items d)
      then Ok (with_receipts d rs)
      else Err foreign_key_violation
  | DELETE_receipts where_ =>
      (* ON DELETE CASCADE: the line items of the deleted receipts go with
         them, in the same statement. *)
      Ok {| receipts := delete_rows where_ (receipts d);
            line_items := delete_rows (children (touched where_ d))
                            (line_items d);
            categories := categories d;
            categories_has_updated_at := categories_has_updated_at d;
            settings := settings d |}
  | INSERT_line_items v =>
      ls <- insert_row LineItems.check LineItems.conflicts
              (LineItems.references (receipts d))
              (LineItems.new_row e v) (line_items d) ;;
      Ok (with_line_items d ls)
  | UPDATE_line_items set where_ =>
      ls <- update_rows LineItems.conflicts
              (LineItems.references (receipts d))
              (updated LineItems.coerce LineItems.constrain no_trigger set)
              where_ (line_items d) ;;
      Ok (with_line_items d ls)
  | DELETE_line_items where_ =>
      Ok (with_line_items d (delete_rows where_ (line_items d)))
  | INSERT_categories_DO_NOTHING vs =>
      cs <- insert_rows_do_nothing Categories.check Categories.conflicts
              Categories.same_name
              (Categories.new_rows e (categories_has_updated_at d) 0 vs)
              (categories d) ;;
      Ok (with_categories d cs)
  | UPDATE_categories set where_ =>
      cs <- update_rows Categories.conflicts no_references
              (updated Categories.coerce Categories.constrain no_trigger set)
              where_ (categories d) ;;
      Ok (with_categories d cs)
  | INSERT_settings_DO_NOTHING vs =>
      ss <- insert_rows_do_nothing Settings.check Settings.conflicts
              Settings.conflicts (map (Settings.new_row e) vs)
              (settings d) ;;
      Ok (with_settings d ss)
  | SET_setting k v enc =>
      ss <- Settings.set e k v enc (settings d) ;;
      Ok (with_settings d ss)
  end.

(** A statement is atomic: when it fails, the store is as it was. *)
Definition run (e : env) (s : statement) (d : db) : db :=
  match exec e s d with
  | Ok d' => d'
  | Err _ => d
  end.

(** The seed statements of the two scripts. *)
Definition init_sql_seed : statement :=
  INSERT_categories_DO_NOTHING Categories.init_seed.
Definition migration_seed_categories : statement :=
  INSERT_categories_DO_NOTHING Categories.migration_seed.
Definition migration_seed_settings : statement :=
  INSERT_settings_DO_NOTHING Settings.seed.

(** The states the store can be in: the empty tables the scripts create,
    and whatever a statement that succeeded leaves. *)
Inductive reachable : db -> Prop :=
| reach_empty : forall b, reachable (empty_db b)
| reach_exec : forall e s d d',
    reachable d -> exec e s d = Ok d' -> reachable d'.

(** ** The upload dropzone (frontend/components/receipt-dropzone.tsx) *)

Module Dropzone.

(** The fields of a DOM [File] the component reads. *)
Record File : Type := mk_File {
  name : string;
  type : string;
  size : Z
}.

(** react-dropzone's rejection codes. *)
Inductive ErrorCode : Type :=
| file_invalid_type
| too_many_files.

Record FileRejection : Type := mk_FileRejection {
  file : File;
  errors : list ErrorCode
}.

(** [ReceiptDropzoneProps] without the two callbacks and [className]:
    [disabled] is optional and defaults to [false]. *)
Record ReceiptDropzoneProps : Type := mk_props {
  selectedFile : option File;
  disabled : option bool
}.

(** What the component does to the outside: the two callbacks of its props,
    and the console. *)
Inductive effect : Type :=
| onFileSelect (f : File)
| onFileRemove
| console_warn (label : string) (errs : list ErrorCode).

(** [onDrop], lines 24-37. *)
Definition onDrop (acceptedFiles : list File)
    (rejectedFiles : list FileRejection) : list effect :=
  (if (0 <? Z.of_nat (List.length acceptedFiles))
   then match nth_error acceptedFiles 0 with
        | Some f => [onFileSelect f]
        | None => []
        end
   else [])
  ++
  (if (0 <? Z.of_nat (List.length rejectedFiles))
   then match nth_error rejectedFiles 0 with
        | Some r => [console_warn "File rejected:" (errors r)]
        | None => []
        end
   else []).

(** The click handler of the remove button, lines 70-73; the button is
    rendered only while a file is selected. *)
Definition onClick_remove (p : ReceiptDropzoneProps) : list effect :=
  match selectedFile p with
  | Some _ => [onFileRemove]
  | None => []
  end.

Record DropzoneOptions : Type := mk_options {
  accept : list (string * list string);
  maxFiles : nat;
  multiple : bool;
  opt_disabled : bool
}.

Definition truthy {A : Type} (v : option A) : bool :=
  match v with Some _ => true | None => false end.

(** The options of the [useDropzone] call, lines 39-49. *)
Definition options (p : ReceiptDropzoneProps) : DropzoneOptions :=
  {| accept := [ ("image/jpeg", []); ("image/png", []);
                 ("application/pdf", []) ];
     maxFiles := 1;
     multiple := false;
     opt_disabled :=
       match disabled p with Some b => b | None => false end
       || truthy (selectedFile p) |}.

(** What follows is not code of the repository: it is what the component
    gets from react-dropzone (the release line that takes [accept] as an
    object and reports [FileRejection]s) and from the two packages it calls,
    file-selector to read the files of the event and attr-accept to compare a
    file with the accept list, written out as far as the options above can
    reach.  Strings are read one character per [ascii]. *)

(** [String.prototype.toLowerCase] on those characters: A-Z, and the
    capital letters of Latin-1. *)
Definition toLowerCase_char (c : ascii) : ascii :=
  let n := nat_of_ascii c in
  if (Nat.leb 65 n && Nat.leb n 90)
     || (Nat.leb 192 n && Nat.leb n 222 && negb (Nat.eqb n 215))
  then ascii_of_nat (n + 32)
  else c.

Fixpoint toLowerCase (s : string) : string :=
  match s with
  | EmptyString => EmptyString
  | String c s' => String (toLowerCase_char c) (toLowerCase s')
  end.

(** [name.split('.').pop()] when [name.lastIndexOf('.') !== -1]: what
    follows the last dot. *)
Fixpoint after_last_dot (s : string) : option string :=
  match s with
  | EmptyString => None
  | String c s' =>
      match after_last_dot s' with
      | Some e => Some e
      | None => if Ascii.eqb c "."%char then Some s' else None
      end
  end.

Fixpoint ends_with (s ext : string) : bool :=
  String.eqb s ext ||
  match s with
  | EmptyString => false
  | String _ s' => ends_with s' ext
  end.

Fixpoint no_line_terminator (s : string) : bool :=
  match s with
  | EmptyString => true
  | String c s' =>
      negb (Ascii.eqb c "010"%char) && negb (Ascii.eqb c "013"%char)
      && no_line_terminator s'
  end.

(** [s.replace(/\/.*$/, '')]: [s] cut at the first slash that no line
    terminator follows, if there is one. *)
Fixpoint cut_at_slash (s : string) : option string :=
  match s with
  | EmptyString => None
  | String c s' =>
      if Ascii.eqb c "/"%char && no_line_terminator s' then Some EmptyString
      else option_map (String c) (cut_at_slash s')
  end.

Definition before_slash (s : string) : string :=
  match cut_at_slash s with
  | Some p => p
  | None => s
  end.

(** file-selector leaves out the thumbnail caches of macOS and Windows. *)
Definition FILES_TO_IGNORE : list string := [".DS_Store"; "Thumbs.db"].

Definition ignored (f : File) : bool :=
  existsb (String.eqb (name f)) FILES_TO_IGNORE.

Definition reject (c : ErrorCode) (f : File) : FileRejection :=
  {| file := f; errors := [c] |}.

Section Library.
(** file-selector's table from a file extension to a MIME type.  Its entries
    are not needed here, so it is left open. *)
Variable COMMON_MIME_TYPES : string -> option string.

(** A file that comes with a name with a dot in it and with no type is given
    the type the table has for its extension, if it has one. *)
Definition withMimeType (f : File) : File :=
  match after_last_dot (name f) with
  | Some ext =>
      if String.eqb (type f) EmptyString
      then match COMMON_MIME_TYPES (toLowerCase ext) with
           | Some t => {| name := name f; type := t; size := size f |}
           | None => f
           end
      else f
  | None => f
  end.

(** The files of a drop event as the dropzone gets them; the event carries
    files, not directories. *)
Definition fromEvent (files : list File) : list File :=
  filter (fun f => negb (ignored f)) (map withMimeType files).

(** The accept object as the list attr-accept is given: each key followed
    by its extensions (the keys here are well-formed MIME types, which the
    conversion keeps). *)
Definition acceptAttr (o : DropzoneOptions) : list string :=
  flat_map (fun a => fst a :: snd a) (accept o).

(** attr-accept: a file passes an empty list, and otherwise one entry of
    the list must fit it: an extension its name ends with, a wildcard with
    the base of its type, or its type itself, letter case set aside.  (The
    entries are also trimmed of white space; the keys here have none.) *)
Definition accepts (f : File) (acceptedFiles : list string) : bool :=
  match acceptedFiles with
  | [] => true
  | _ =>
      let fileName := name f in
      let mimeType := toLowerCase (type f) in
      let baseMimeType := before_slash mimeType in
      existsb (fun t =>
                 let validType := toLowerCase t in
                 match validType with
                 | String "."%char _ =>
                     ends_with (toLowerCase fileName) validType
                 | _ =>
                     if ends_with validType "/*"
                     then String.eqb baseMimeType (before_slash validType)
                     else String.eqb mimeType validType
                 end)
              acceptedFiles
  end.

(** react-dropzone's [fileAccepted]: the placeholder type that old Firefox
    versions give every dragged file always passes. *)
Definition fileAccepted (o : DropzoneOptions) (f : File) : bool :=
  String.eqb (type f) "application/x-moz-file" || accepts f (acceptAttr o).

(** The files are split by [accept] (no size limit is set, so none is
    rejected for its size); when more are accepted than the options allow,
    all of them are rejected as too many. *)
Definition setFiles (o : DropzoneOptions) (files : list File)
  : list File * list FileRejection :=
  let acceptedFiles := filter (fileAccepted o) files in
  let fileRejections :=
    map (reject file_invalid_type)
        (filter (fun f => negb (fileAccepted o f)) files) in
  if (negb (multiple o) && Nat.ltb 1 (List.length acceptedFiles))
     || (multiple o && Nat.leb 1 (maxFiles o)
         && Nat.ltb (maxFiles o) (List.length acceptedFiles))
  then ([], fileRejections ++ map (reject too_many_files) acceptedFiles)
  else (acceptedFiles, fileRejections).

(** A drop on the component: a disabled dropzone has no drop handler;
    otherwise the files of the event are read and split, and [onDrop] is
    called once. *)
Definition drop (p : ReceiptDropzoneProps) (files : list File)
  : list effect :=
  let o := options p in
  if opt_disabled o then []
  else let (acceptedFiles, fileRejections) := setFiles o (fromEvent files) in
       onDrop acceptedFiles fileRejections.
End Library.

(** The calls made to the caller, which is all the caller sees. *)
Definition to_caller (ef : effect) : bool :=
  match ef with
  | onFileSelect _ | onFileRemove => true
  | console_warn _ _ => false
  end.

Definition selected (efs : list effect) : list File :=
  flat_map (fun ef => match ef with onFileSelect f => [f] | _ => [] end) efs.

(** *** [formatFileSize], lines 52-58 *)

Definition k : Z := 1024.
Definition sizes : list string := ["Bytes"; "KB"; "MB"; "GB"].

Definition digits (n : Z) : string :=
  NilZero.string_of_uint (N.to_uint (Z.to_N n)).

(** [parseFloat(x.toFixed(2)) + ""] for [x >= 0] given in hundredths: the
    integer part, then the fraction without its trailing zeros. *)
Definition number_to_string (hundredths : Z) : string :=
  let whole := hundredths / 100 in
  let frac := hundredths mod 100 in
  let second :=
    if frac mod 10 =? 0 then EmptyString else digits (frac mod 10) in
  let fraction :=
    if frac =? 0 then EmptyString
    else String.append "." (String.append (digits (frac / 10)) second) in
  String.append (digits whole) fraction.

(** [x.toFixed(2)] for [x = num / den]: the nearest number of hundredths,
    the larger one on a tie. *)
Definition toFixed2 (num den : Z) : Z := (200 * num + den) / (2 * den).

Definition unit_at (i : Z) : string :=
  match nth_error sizes (Z.to_nat i) with
  | Some u => u
  | None => "undefined"
  end.

(** [bytes] is an integer, as [File.size] is.  [Math.floor(Math.log(bytes)
    / Math.log(k))] is computed exactly here, as the integer logarithm in
    base 1024.  The quotient of doubles has the same floor for the byte
    counts below 2^49, which is as far as the theorems below go; it has
    not for the last few counts below 2^50, where the quotient rounds up
    to 5 (the code shows 2^50 - 1 as "1 undefined", not as
    "1024 undefined").  A negative count makes [Math.log] return NaN, which
    reaches both halves of the result. *)
Definition formatFileSize (bytes : Z) : string :=
  if bytes =? 0 then "0 Bytes"
  else if bytes <? 0 then "NaN undefined"
  else
    let i := Z.log2 bytes / 10 in
    String.append (number_to_string (toFixed2 bytes (k ^ i)))
                  (String.append " " (unit_at i)).

End Dropzone.

(** ** What the constraints are meant to guarantee *)

(** A stored row passes its table's checks unchanged. *)
Definition stored {row : Type} (check : row -> result row) (r : row) : Prop :=
  check r = Ok r.

Record wf (d : db) : Prop := mk_wf {
  wf_receipts : Forall (stored Receipts.check) (receipts d);
  wf_receipts_pk : unique Receipts.conflicts (receipts d) = true;
  wf_line_items : Forall (stored LineItems.check) (line_items d);
  wf_line_items_pk : unique LineItems.conflicts (line_items d) = true;
  wf_line_items_fk :
    Forall (fun li => LineItems.references (receipts d) li = true)
           (line_items d);
  wf_categories : Forall (stored Categories.check) (categories d);
  wf_categories_unique :
    unique Categories.conflicts (categories d) = true;
  wf_settings : Forall (stored Settings.check) (settings d);
  wf_settings_pk : unique Settings.conflicts (settings d) = true
}.

(** Every line item has its receipt. *)
Definition no_orphans (d : db) : Prop :=
  forall li, In li (line_items d) ->
    exists p i, In p (receipts d) /\ Receipts.id p = Some i
                /\ LineItems.receipt_id li = Some i.

(** The status is one of the three of the CHECK constraint. *)
Definition status_listed (r : Receipts.row) : Prop :=
  exists s, Receipts.status r = Some s /\ In s Receipts.statuses.

Definition quantity_at_least_one (li : LineItems.row) : Prop :=
  exists q, LineItems.quantity li = Some q /\ 1 <= q.

Definition quantity_integer_or_null (li : LineItems.row) : Prop :=
  match LineItems.quantity li with
  | None => True
  | Some q => - 2 ^ 31 <= q < 2 ^ 31
  end.

(** No two categories share a name, and no category is without one. *)
Definition names_unique (d : db) : Prop :=
  NoDup (map Categories.name (categories d))
  /\ Forall (fun c => Categories.name c <> None) (categories d).

Definition has_key (k : string) (r : Settings.row) : bool :=
  same String.eqb (Some k) (Settings.key r).

(** The rows of [settings] stored under a key. *)
Definition rows_with_key (k : string) (d : db) : list Settings.row :=
  filter (has_key k) (settings d).

(** Some call reached the component's caller. *)
Definition reported_to_caller (efs : list Dropzone.effect) : Prop :=
  exists ef, In ef efs /\ Dropzone.to_caller ef = true.

(** The MIME types the spec allows. *)
Definition allowed_types : list string :=
  ["image/jpeg"; "image/png"; "application/pdf"].

(** The three seed statements of the scripts. *)
Definition seed_statements : list statement :=
  [init_sql_seed; migration_seed_categories; migration_seed_settings].

(** WHERE id = i. *)
Definition id_is (i : uuid) (r : Receipts.row) : bool :=
  same N.eqb (Some i) (Receipts.id r).

(** INSERT INTO receipts (image_url) VALUES (u): every other column left to
    its default. *)
Definition only_image_url (u : string) : Receipts.values :=
  {| Receipts.v_id := DEFAULT;
     Receipts.v_image_url := VALUE (Some u);
     Receipts.v_merchant_name := DEFAULT;
     Receipts.v_purchase_date := DEFAULT;
     Receipts.v_total_amount := DEFAULT;
     Receipts.v_tax_amount := DEFAULT;
     Receipts.v_status := DEFAULT;
     Receipts.v_created_at := DEFAULT;
     Receipts.v_updated_at := DEFAULT |}.

(** The row that INSERT stores. *)
Definition pending_receipt (e : env) (u : string) : Receipts.row :=
  {| Receipts.id := Some (uuid_generate_v4 e 0);
     Receipts.image_url := Some u;
     Receipts.merchant_name := None;
     Receipts.purchase_date := None;
     Receipts.total_amount := None;
     Receipts.tax_amount := None;
     Receipts.status := Some "pending";
     Receipts.created_at := Some (CURRENT_TIMESTAMP e);
     Receipts.updated_at := Some (CURRENT_TIMESTAMP e) |}.

(** A text value within the declared width of its column. *)
Definition fits (n : nat) (v : option string) : Prop :=
  match v with
  | None => True
  | Some s => (String.length s <= n)%nat
  end.

(** An amount within DECIMAL(10,2): below 100,000,000.00 in size. *)
Definition amount_ok (v : option decimal) : Prop :=
  match v with
  | None => True
  | Some x => Z.abs x < 10 ^ 10
  end.

Definition receipt_columns_ok (r : Receipts.row) : Prop :=
  Receipts.id r <> None
  /\ Receipts.image_url r <> None
  /\ fits 512 (Receipts.image_url r)
  /\ fits 255 (Receipts.merchant_name r)
  /\ fits 50 (Receipts.status r)
  /\ amount_ok (Receipts.total_amount r)
  /\ amount_ok (Receipts.tax_amount r).

Definition line_item_columns_ok (r : LineItems.row) : Prop :=
  LineItems.id r <> None
  /\ LineItems.receipt_id r <> None
  /\ fits 255 (LineItems.description r)
  /\ fits 100 (LineItems.category r)
  /\ amount_ok (LineItems.unit_price r)
  /\ amount_ok (LineItems.total_price r).

Definition category_columns_ok (r : Categories.row) : Prop :=
  Categories.id r <> None
  /\ Categories.name r <> None
  /\ fits 100 (Categories.name r)
  /\ amount_ok (Categories.monthly_budget_limit r).

Definition setting_columns_ok (r : Settings.row) : Prop :=
  Settings.key r <> None
  /\ fits 100 (Settings.key r)
  /\ Settings.value r <> None.

(** The two category seeds, as VALUES lists. *)
Definition category_seeds : list (list (string * option decimal)) :=
  [Categories.init_seed; Categories.migration_seed].

(** The type under which the dropzone takes a file: one of the three of the
    accept list, letter case set aside, or the placeholder of old Firefox
    versions. *)
Definition type_accepted (f : Dropzone.File) : Prop :=
  In (Dropzone.toLowerCase (Dropzone.type f)) allowed_types
  \/ Dropzone.type f = "application/x-moz-file".

(** The dropzone takes drops: not disabled by its prop, no file selected. *)
Definition enabled (p : Dropzone.ReceiptDropzoneProps) : Prop :=
  Dropzone.selectedFile p = None /\ Dropzone.disabled p <> Some true.

Module Samples.

Definition e0 : env :=
  {| CURRENT_TIMESTAMP := 1700000000;
     uuid_generate_v4 := fun n => (N.of_nat n + 7)%N |}.
Definition e1 : env :=
  {| CURRENT_TIMESTAMP := 1700000600;
     uuid_generate_v4 := fun n => (N.of_nat n + 40)%N |}.
Definition e2 : env :=
  {| CURRENT_TIMESTAMP := 1700001200;
     uuid_generate_v4 := fun n => (N.of_nat n + 90)%N |}.

(** INSERT INTO receipts (image_url) VALUES ('/app/storage/r1.jpg') *)
Definition receipt_values : Receipts.values :=
  {| Receipts.v_id := DEFAULT;
     Receipts.v_image_url := VALUE (Some "/app/storage/r1.jpg");
     Receipts.v_merchant_name := DEFAULT;
     Receipts.v_purchase_date := DEFAULT;
     Receipts.v_total_amount := DEFAULT;
     Receipts.v_tax_amount := DEFAULT;
     Receipts.v_status := DEFAULT;
     Receipts.v_created_at := DEFAULT;
     Receipts.v_updated_at := DEFAULT |}.

(** INSERT INTO receipts (image_url, status)
    VALUES ('/app/storage/r1.jpg', NULL) *)
Definition receipt_null_status : Receipts.values :=
  {| Receipts.v_id := DEFAULT;
     Receipts.v_image_url := VALUE (Some "/app/storage/r1.jpg");
     Receipts.v_merchant_name := DEFAULT;
     Receipts.v_purchase_date := DEFAULT;
     Receipts.v_total_amount := DEFAULT;
     Receipts.v_tax_amount := DEFAULT;
     Receipts.v_status := VALUE None;
     Receipts.v_created_at := DEFAULT;
     Receipts.v_updated_at := DEFAULT |}.

(** INSERT INTO line_items (receipt_id, description, quantity)
    VALUES (7, 'Milk', q), or without the quantity column. *)
Definition line_item_values (q : col Z) : LineItems.values :=
  {| LineItems.v_id := DEFAULT;
     LineItems.v_receipt_id := VALUE (Some 7%N);
     LineItems.v_description := VALUE (Some "Milk");
     LineItems.v_category := DEFAULT;
     LineItems.v_quantity := q;
     LineItems.v_unit_price := DEFAULT;
     LineItems.v_total_price := DEFAULT;
     LineItems.v_created_at := DEFAULT |}.

(** One receipt, with id 7. *)
Definition one_receipt : db :=
  run e0 (INSERT_receipts receipt_values) (empty_db false).

(** That receipt and one line item of it, with the default quantity. *)
Definition with_item : db :=
  run e1 (INSERT_line_items (line_item_values DEFAULT)) one_receipt.

(** That receipt and a line item of it with quantity 0. *)
Definition with_zero_quantity : db :=
  run e1 (INSERT_line_items (line_item_values (VALUE (Some 0)))) one_receipt.

(** UPDATE receipts SET merchant_name = 'Corner Shop',
    updated_at = created_at *)
Definition set_merchant (r : Receipts.row) : Receipts.row :=
  {| Receipts.id := Receipts.id r;
     Receipts.image_url := Receipts.image_url r;
     Receipts.merchant_name := Some "Corner Shop";
     Receipts.purchase_date := Receipts.purchase_date r;
     Receipts.total_amount := Receipts.total_amount r;
     Receipts.tax_amount := Receipts.tax_amount r;
     Receipts.status := Receipts.status r;
     Receipts.created_at := Receipts.created_at r;
     Receipts.updated_at := Receipts.created_at r |}.

Definition everywhere {row : Type} (r : row) : bool := true.

(** Seeded by the migration, then the theme set to 'dark'. *)
Definition themed : db :=
  run e1 (SET_setting "theme" "dark" false)
      (run e0 migration_seed_settings (empty_db true)).

Definition notes_txt : Dropzone.File :=
  {| Dropzone.name := "notes.txt"; Dropzone.type := "text/plain";
     Dropzone.size := 120 |}.
Definition receipt_jpg : Dropzone.File :=
  {| Dropzone.name := "receipt.jpg"; Dropzone.type := "image/jpeg";
     Dropzone.size := 204800 |}.
Definition two_pages_pdf : Dropzone.File :=
  {| Dropzone.name := "pages.pdf"; Dropzone.type := "application/pdf";
     Dropzone.size := 1536 |}.
(** A file that comes without a type, as scans from some devices do. *)
Definition scan_pdf : Dropzone.File :=
  {| Dropzone.name := "scan.PDF"; Dropzone.type := EmptyString;
     Dropzone.size := 88000 |}.
Definition setup_exe : Dropzone.File :=
  {| Dropzone.name := "setup.exe";
     Dropzone.type := "application/x-moz-file";
     Dropzone.size := 4096 |}.
(** Five entries of file-selector's table. *)
Definition mime_types (ext : string) : option string :=
  if String.eqb ext "pdf" then Some "application/pdf"
  else if String.eqb ext "jpg" then Some "image/jpeg"
  else if String.eqb ext "jpeg" then Some "image/jpeg"
  else if String.eqb ext "png" then Some "image/png"
  else if String.eqb ext "txt" then Some "text/plain"
  else None.
Definition idle : Dropzone.ReceiptDropzoneProps :=
  {| Dropzone.selectedFile := None; Dropzone.disabled := None |}.
Definition holding : Dropzone.ReceiptDropzoneProps :=
  {| Dropzone.selectedFile := Some receipt_jpg; Dropzone.disabled := None |}.

(** INSERT INTO receipts (merchant_name) VALUES ('Corner Shop') *)
Definition receipt_without_image : Receipts.values :=
  {| Receipts.v_id := DEFAULT;
     Receipts.v_image_url := DEFAULT;
     Receipts.v_merchant_name := VALUE (Some "Corner Shop");
     Receipts.v_purchase_date := DEFAULT;
     Receipts.v_total_amount := DEFAULT;
     Receipts.v_tax_amount := DEFAULT;
     Receipts.v_status := DEFAULT;
     Receipts.v_created_at := DEFAULT;
     Receipts.v_updated_at := DEFAULT |}.

(** INSERT INTO receipts (image_url, status)
    VALUES ('/app/storage/r2.png', 'done') *)
Definition receipt_status_done : Receipts.values :=
  {| Receipts.v_id := DEFAULT;
     Receipts.v_image_url := VALUE (Some "/app/storage/r2.png");
     Receipts.v_merchant_name := DEFAULT;
     Receipts.v_purchase_date := DEFAULT;
     Receipts.v_total_amount := DEFAULT;
     Receipts.v_tax_amount := DEFAULT;
     Receipts.v_status := VALUE (Some "done");
     Receipts.v_created_at := DEFAULT;
     Receipts.v_updated_at := DEFAULT |}.

(** UPDATE receipts SET status = 'done' *)
Definition set_status_done (r : Receipts.row) : Receipts.row :=
  {| Receipts.id := Receipts.id r;
     Receipts.image_url := Receipts.image_url r;
     Receipts.merchant_name := Receipts.merchant_name r;
     Receipts.purchase_date := Receipts.purchase_date r;
     Receipts.total_amount := Receipts.total_amount r;
     Receipts.tax_amount := Receipts.tax_amount r;
     Receipts.status := Some "done";
     Receipts.created_at := Receipts.created_at r;
     Receipts.updated_at := Receipts.updated_at r |}.

End Samples.

(** * Proofs *)

(** ** Column types *)

Lemma bind_ok {A B : Type} (m : result A) (f : A -> result B) (b : B) :
  bind m f = Ok b -> exists a, m = Ok a /\ f a = Ok b.
Proof.
  destruct m as [a|err]; simpl; intro H; [|discriminate].
  exists a. split; [reflexivity|exact H].
Qed.

(** Take a successful sequence of checks apart, one step at a time. *)
Ltac unbind H :=
  let a := fresh "a" in
  let E := fresh "E" in
  apply bind_ok in H; destruct H as (a & E & H).

Lemma substring_length_le (n : nat) (s : string) :
  (String.length (substring 0 n s) <= n)%nat.
Proof.
  revert s. induction n as [|n IH]; intros [|c s]; simpl; try lia.
  specialize (IH s). lia.
Qed.

Lemma varchar_length (n : nat) (s s' : string) :
  varchar n s = Ok s' -> (String.length s' <= n)%nat.
Proof.
  unfold varchar. destruct (Nat.leb (String.length s) n) eqn:L.
  - intro H. injection H as <-. now apply Nat.leb_le.
  - destruct (all_spaces _); [|discriminate].
    intro H. injection H as <-. apply substring_length_le.
Qed.

Lemma varchar_short (n : nat) (s : string) :
  (String.length s <= n)%nat -> varchar n s = Ok s.
Proof.
  intro L. unfold varchar. apply Nat.leb_le in L. now rewrite L.
Qed.

Lemma varchar_fixed (n : nat) (s s' : string) :
  varchar n s = Ok s' -> varchar n s' = Ok s'.
Proof. intro H. apply varchar_short. eapply varchar_length; eassumption. Qed.

Lemma decimal_10_2_fixed (x y : decimal) :
  decimal_10_2 x = Ok y -> decimal_10_2 y = Ok y.
Proof.
  unfold decimal_10_2. destruct (Z.abs x <? 10 ^ 10) eqn:L; [|discriminate].
  intro H. injection H as <-. now rewrite L.
Qed.

Lemma integer_range (x y : Z) :
  integer x = Ok y -> y = x /\ - 2 ^ 31 <= x < 2 ^ 31.
Proof.
  unfold integer.
  destruct ((- 2 ^ 31 <=? x) && (x <? 2 ^ 31)) eqn:L; [|discriminate].
  intro H. injection H as <-. apply andb_prop in L. destruct L as [L1 L2].
  apply Z.leb_le in L1. apply Z.ltb_lt in L2. auto.
Qed.

Lemma integer_fixed (x y : Z) : integer x = Ok y -> integer y = Ok y.
Proof.
  intro H. destruct (integer_range _ _ H) as [-> _]. exact H.
Qed.

Lemma nullable_fixed {A : Type} (f : A -> result A) (v v' : option A) :
  (forall a b, f a = Ok b -> f b = Ok b) ->
  nullable f v = Ok v' -> nullable f v' = Ok v'.
Proof.
  intros Hf. destruct v as [a|]; simpl; intro H.
  - unbind H. injection H as <-. simpl. now rewrite (Hf _ _ E).
  - injection H as <-. reflexivity.
Qed.

Lemma same_string_eq (x y : option string) :
  same String.eqb x y = true <-> exists s, x = Some s /\ y = Some s.
Proof.
  destruct x as [a|], y as [b|]; simpl; split; try discriminate;
    try (intros (s & H1 & H2); discriminate).
  - intro H. apply String.eqb_eq in H. subst. eauto.
  - intros (s & H1 & H2). injection H1 as ->. injection H2 as ->.
    apply String.eqb_refl.
Qed.

Lemma same_uuid_eq (x y : option uuid) :
  same N.eqb x y = true <-> exists i, x = Some i /\ y = Some i.
Proof.
  destruct x as [a|], y as [b|]; simpl; split; try discriminate;
    try (intros (s & H1 & H2); discriminate).
  - intro H. apply N.eqb_eq in H. subst. eauto.
  - intros (s & H1 & H2). injection H1 as ->. injection H2 as ->.
    apply N.eqb_refl.
Qed.

Lemma same_sym {A : Type} (eqb : A -> A -> bool) (x y : option A) :
  (forall a b, eqb a b = eqb b a) -> same eqb x y = same eqb y x.
Proof. intro H. destruct x, y; simpl; auto. Qed.

(** ** The checks of each table are idempotent: what was stored stays
    storable *)

Lemma not_null_ok {A : Type} (v : option A) (a : A) :
  not_null v = Ok a -> v = Some a.
Proof. destruct v; simpl; intro H; [now injection H as ->|discriminate]. Qed.

Lemma receipts_coerce_inv (r c : Receipts.row) :
  Receipts.coerce r = Ok c ->
  exists u m t x s,
    nullable (varchar 512) (Receipts.image_url r) = Ok u
    /\ nullable (varchar 255) (Receipts.merchant_name r) = Ok m
    /\ nullable decimal_10_2 (Receipts.total_amount r) = Ok t
    /\ nullable decimal_10_2 (Receipts.tax_amount r) = Ok x
    /\ nullable (varchar 50) (Receipts.status r) = Ok s
    /\ c = {| Receipts.id := Receipts.id r; Receipts.image_url := u;
              Receipts.merchant_name := m;
              Receipts.purchase_date := Receipts.purchase_date r;
              Receipts.total_amount := t; Receipts.tax_amount := x;
              Receipts.status := s;
              Receipts.created_at := Receipts.created_at r;
              Receipts.updated_at := Receipts.updated_at r |}.
Proof.
  unfold Receipts.coerce. intro H.
  apply bind_ok in H. destruct H as (u & Hu & H).
  apply bind_ok in H. destruct H as (m & Hm & H).
  apply bind_ok in H. destruct H as (t & Ht & H).
  apply bind_ok in H. destruct H as (x & Hx & H).
  apply bind_ok in H. destruct H as (s & Hs & H).
  injection H as <-. exists u, m, t, x, s. auto 10.
Qed.

Lemma receipts_constrain_inv (r r' : Receipts.row) :
  Receipts.constrain r = Ok r' ->
  r' = r
  /\ Receipts.id r <> None
  /\ Receipts.image_url r <> None
  /\ check_constraint (sql_in (Receipts.status r) Receipts.statuses) = Ok tt.
Proof.
  unfold Receipts.constrain. intro H.
  apply bind_ok in H. destruct H as (i & Hi & H).
  apply bind_ok in H. destruct H as (u & Hu & H).
  apply bind_ok in H. destruct H as ([] & Hc & H).
  injection H as <-.
  apply not_null_ok in Hi. apply not_null_ok in Hu.
  repeat split; congruence.
Qed.

Lemma receipts_check_inv (r r' : Receipts.row) :
  Receipts.check r = Ok r' ->
  Receipts.coerce r = Ok r' /\ Receipts.constrain r' = Ok r'.
Proof.
  unfold Receipts.check. intro H.
  apply bind_ok in H. destruct H as (c & Hc & H).
  destruct (receipts_constrain_inv _ _ H) as (-> & _). auto.
Qed.

Lemma receipts_coerce_fixed (r c : Receipts.row) :
  Receipts.coerce r = Ok c -> Receipts.coerce c = Ok c.
Proof.
  intro H. apply receipts_coerce_inv in H.
  destruct H as (u & m & t & x & s & Hu & Hm & Ht & Hx & Hs & ->).
  unfold Receipts.coerce. simpl.
  rewrite (nullable_fixed _ _ _ (varchar_fixed 512) Hu); simpl.
  rewrite (nullable_fixed _ _ _ (varchar_fixed 255) Hm); simpl.
  rewrite (nullable_fixed _ _ _ decimal_10_2_fixed Ht); simpl.
  rewrite (nullable_fixed _ _ _ decimal_10_2_fixed Hx); simpl.
  rewrite (nullable_fixed _ _ _ (varchar_fixed 50) Hs); simpl.
  reflexivity.
Qed.

Lemma receipts_check_fixed (r r' : Receipts.row) :
  Receipts.check r = Ok r' -> stored Receipts.check r'.
Proof.
  intro H. apply receipts_check_inv in H. destruct H as [Hc Hn].
  unfold stored, Receipts.check.
  rewrite (receipts_coerce_fixed _ _ Hc). exact Hn.
Qed.

Lemma line_items_coerce_inv (r c : LineItems.row) :
  LineItems.coerce r = Ok c ->
  exists d g q u t,
    nullable (varchar 255) (LineItems.description r) = Ok d
    /\ nullable (varchar 100) (LineItems.category r) = Ok g
    /\ nullable integer (LineItems.quantity r) = Ok q
    /\ nullable decimal_10_2 (LineItems.unit_price r) = Ok u
    /\ nullable decimal_10_2 (LineItems.total_price r) = Ok t
    /\ c = {| LineItems.id := LineItems.id r;
              LineItems.receipt_id := LineItems.receipt_id r;
              LineItems.description := d; LineItems.category := g;
              LineItems.quantity := q; LineItems.unit_price := u;
              LineItems.total_price := t;
              LineItems.created_at := LineItems.created_at r |}.
Proof.
  unfold LineItems.coerce. intro H.
  apply bind_ok in H. destruct H as (d & Hd & H).
  apply bind_ok in H. destruct H as (g & Hg & H).
  apply bind_ok in H. destruct H as (q & Hq & H).
  apply bind_ok in H. destruct H as (u & Hu & H).
  apply bind_ok in H. destruct H as (t & Ht & H).
  injection H as <-. exists d, g, q, u, t. auto 10.
Qed.

Lemma line_items_constrain_inv (r r' : LineItems.row) :
  LineItems.constrain r = Ok r' ->
  r' = r /\ LineItems.id r <> None /\ LineItems.receipt_id r <> None.
Proof.
  unfold LineItems.constrain. intro H.
  apply bind_ok in H. destruct H as (i & Hi & H).
  apply bind_ok in H. destruct H as (u & Hu & H).
  injection H as <-.
  apply not_null_ok in Hi. apply not_null_ok in Hu.
  repeat split; congruence.
Qed.

Lemma line_items_check_inv (r r' : LineItems.row) :
  LineItems.check r = Ok r' ->
  LineItems.coerce r = Ok r' /\ LineItems.constrain r' = Ok r'.
Proof.
  unfold LineItems.check. intro H.
  apply bind_ok in H. destruct H as (c & Hc & H).
  destruct (line_items_constrain_inv _ _ H) as (-> & _). auto.
Qed.

Lemma line_items_coerce_fixed (r c : LineItems.row) :
  LineItems.coerce r = Ok c -> LineItems.coerce c = Ok c.
Proof.
  intro H. apply line_items_coerce_inv in H.
  destruct H as (d & g & q & u & t & Hd & Hg & Hq & Hu & Ht & ->).
  unfold LineItems.coerce. simpl.
  rewrite (nullable_fixed _ _ _ (varchar_fixed 255) Hd); simpl.
  rewrite (nullable_fixed _ _ _ (varchar_fixed 100) Hg); simpl.
  rewrite (nullable_fixed _ _ _ integer_fixed Hq); simpl.
  rewrite (nullable_fixed _ _ _ decimal_10_2_fixed Hu); simpl.
  rewrite (nullable_fixed _ _ _ decimal_10_2_fixed Ht); simpl.
  reflexivity.
Qed.

Lemma line_items_check_fixed (r r' : LineItems.row) :
  LineItems.check r = Ok r' -> stored LineItems.check r'.
Proof.
  intro H. apply line_items_check_inv in H. destruct H as [Hc Hn].
  unfold stored, LineItems.check.
  rewrite (line_items_coerce_fixed _ _ Hc). exact Hn.
Qed.

Lemma categories_coerce_inv (r c : Categories.row) :
  Categories.coerce r = Ok c ->
  exists n b,
    nullable (varchar 100) (Categories.name r) = Ok n
    /\ nullable decimal_10_2 (Categories.monthly_budget_limit r) = Ok b
    /\ c = {| Categories.id := Categories.id r; Categories.name := n;
              Categories.monthly_budget_limit := b;
              Categories.created_at := Categories.created_at r;
              Categories.updated_at := Categories.updated_at r |}.
Proof.
  unfold Categories.coerce. intro H.
  apply bind_ok in H. destruct H as (n & Hn & H).
  apply bind_ok in H. destruct H as (b & Hb & H).
  injection H as <-. exists n, b. auto.
Qed.

Lemma categories_constrain_inv (r r' : Categories.row) :
  Categories.constrain r = Ok r' ->
  r' = r /\ Categories.id r <> None /\ Categories.name r <> None.
Proof.
  unfold Categories.constrain. intro H.
  apply bind_ok in H. destruct H as (i & Hi & H).
  apply bind_ok in H. destruct H as (u & Hu & H).
  injection H as <-.
  apply not_null_ok in Hi. apply not_null_ok in Hu.
  repeat split; congruence.
Qed.

Lemma categories_check_inv (r r' : Categories.row) :
  Categories.check r = Ok r' ->
  Categories.coerce r = Ok r' /\ Categories.constrain r' = Ok r'.
Proof.
  unfold Categories.check. intro H.
  apply bind_ok in H. destruct H as (c & Hc & H).
  destruct (categories_constrain_inv _ _ H) as (-> & _). auto.
Qed.

Lemma categories_coerce_fixed (r c : Categories.row) :
  Categories.coerce r = Ok c -> Categories.coerce c = Ok c.
Proof.
  intro H. apply categories_coerce_inv in H.
  destruct H as (n & b & Hn & Hb & ->).
  unfold Categories.coerce. simpl.
  rewrite (nullable_fixed _ _ _ (varchar_fixed 100) Hn); simpl.
  rewrite (nullable_fixed _ _ _ decimal_10_2_fixed Hb); simpl.
  reflexivity.
Qed.

Lemma categories_check_fixed (r r' : Categories.row) :
  Categories.check r = Ok r' -> stored Categories.check r'.
Proof.
  intro H. apply categories_check_inv in H. destruct H as [Hc Hn].
  unfold stored, Categories.check.
  rewrite (categories_coerce_fixed _ _ Hc). exact Hn.
Qed.

Lemma settings_coerce_inv (r c : Settings.row) :
  Settings.coerce r = Ok c ->
  exists k,
    nullable (varchar 100) (Settings.key r) = Ok k
    /\ c = {| Settings.key := k; Settings.value := Settings.value r;
              Settings.encrypted := Settings.encrypted r;
              Settings.updated_at := Settings.updated_at r |}.
Proof.
  unfold Settings.coerce. intro H.
  apply bind_ok in H. destruct H as (k & Hk & H).
  injection H as <-. exists k. auto.
Qed.

Lemma settings_constrain_inv (r r' : Settings.row) :
  Settings.constrain r = Ok r' ->
  r' = r /\ Settings.key r <> None /\ Settings.value r <> None.
Proof.
  unfold Settings.constrain. intro H.
  apply bind_ok in H. destruct H as (i & Hi & H).
  apply bind_ok in H. destruct H as (u & Hu & H).
  injection H as <-.
  apply not_null_ok in Hi. apply not_null_ok in Hu.
  repeat split; congruence.
Qed.

Lemma settings_check_inv (r r' : Settings.row) :
  Settings.check r = Ok r' ->
  Settings.coerce r = Ok r' /\ Settings.constrain r' = Ok r'.
Proof.
  unfold Settings.check. intro H.
  apply bind_ok in H. destruct H as (c & Hc & H).
  destruct (settings_constrain_inv _ _ H) as (-> & _). auto.
Qed.

Lemma settings_coerce_fixed (r c : Settings.row) :
  Settings.coerce r = Ok c -> Settings.coerce c = Ok c.
Proof.
  intro H. apply settings_coerce_inv in H. destruct H as (k & Hk & ->).
  unfold Settings.coerce. simpl.
  rewrite (nullable_fixed _ _ _ (varchar_fixed 100) Hk); simpl.
  reflexivity.
Qed.

Lemma settings_check_fixed (r r' : Settings.row) :
  Settings.check r = Ok r' -> stored Settings.check r'.
Proof.
  intro H. apply settings_check_inv in H. destruct H as [Hc Hn].
  unfold stored, Settings.check.
  rewrite (settings_coerce_fixed _ _ Hc). exact Hn.
Qed.

(** ** INSERT, UPDATE and DELETE on any table *)

Section TableFacts.
Context {row : Type}.
Variable check : row -> result row.
Variable conflicts : row -> row -> bool.
Variable references : row -> bool.
Hypothesis check_fixed : forall r r', check r = Ok r' -> stored check r'.
Hypothesis conflicts_sym : forall a b, conflicts a b = conflicts b a.

Lemma insert_row_ok (r : row) (rows rows' : list row) :
  insert_row check conflicts references r rows = Ok rows' ->
  exists r', (check r = Ok r' /\ references r' = true)
             /\ existsb (conflicts r') rows = false
             /\ rows' = rows ++ [r'].
Proof.
  unfold insert_row. intro H. unbind H.
  destruct (existsb (conflicts a) rows) eqn:C; [discriminate|].
  destruct (references a) eqn:R; [|discriminate].
  injection H as <-. eauto.
Qed.

Lemma insert_row_do_nothing_ok (arbiter : row -> row -> bool) (r : row)
    (rows rows' : list row) :
  insert_row_do_nothing check conflicts references arbiter r rows
    = Ok rows' ->
  exists r', check r = Ok r' /\
    ((existsb (arbiter r') rows = true /\ rows' = rows)
     \/ (existsb (arbiter r') rows = false
         /\ existsb (conflicts r') rows = false
         /\ references r' = true
         /\ rows' = rows ++ [r'])).
Proof.
  unfold insert_row_do_nothing. intro H. unbind H. exists a.
  split; [exact E|].
  destruct (existsb (arbiter a) rows) eqn:A.
  - injection H as <-. auto.
  - destruct (existsb (conflicts a) rows) eqn:C; [discriminate|].
    destruct (references a) eqn:R; [|discriminate].
    injection H as <-. auto.
Qed.

Lemma existsb_false_In (p : row -> bool) (rows : list row) (x : row) :
  existsb p rows = false -> In x rows -> p x = false.
Proof.
  intros H I. destruct (p x) eqn:P; [|reflexivity].
  assert (existsb p rows = true) by (apply existsb_exists; eauto).
  congruence.
Qed.

Lemma unique_snoc (rows : list row) (r : row) :
  unique conflicts rows = true ->
  existsb (conflicts r) rows = false ->
  unique conflicts (rows ++ [r]) = true.
Proof.
  induction rows as [|x rest IH]; simpl; intros U C; [reflexivity|].
  apply andb_prop in U. destruct U as [U1 U2].
  apply orb_false_elim in C. destruct C as [C1 C2].
  rewrite (IH U2 C2), andb_true_r.
  rewrite existsb_app. simpl.
  apply negb_true_iff in U1. rewrite U1, conflicts_sym, C1. reflexivity.
Qed.

Lemma unique_filter (p : row -> bool) (rows : list row) :
  unique conflicts rows = true -> unique conflicts (filter p rows) = true.
Proof.
  induction rows as [|x rest IH]; simpl; intro U; [reflexivity|].
  apply andb_prop in U. destruct U as [U1 U2].
  destruct (p x); simpl; [|auto].
  rewrite (IH U2), andb_true_r. apply negb_true_iff in U1.
  apply negb_true_iff.
  destruct (existsb (conflicts x) (filter p rest)) eqn:X; [|reflexivity].
  apply existsb_exists in X. destruct X as (y & Iy & Cy).
  apply filter_In in Iy. destruct Iy as [Iy _].
  rewrite (existsb_false_In _ _ _ U1 Iy) in Cy. discriminate.
Qed.

Lemma each_Forall2 (f : row -> result row) (rows rows' : list row) :
  each f rows = Ok rows' ->
  Forall2 (fun r r' => f r = Ok r') rows rows'.
Proof.
  revert rows'. induction rows as [|x rest IH]; simpl; intros rows' H.
  - injection H as <-. constructor.
  - do 2 unbind H. injection H as <-. constructor; auto.
Qed.

Lemma written_referenced_Forall2 (P : row -> row -> Prop)
    (where_ : row -> bool) (rows rows' : list row) :
  Forall2 P rows rows' ->
  written_referenced references where_ rows rows' = true ->
  Forall2 (fun r r' => P r r'
                       /\ (where_ r = true -> references r' = true))
          rows rows'.
Proof.
  unfold written_referenced.
  induction 1 as [|r r' rest rest' Hr _ IH]; simpl; intro W; constructor.
  - apply andb_prop in W. destruct W as [W _].
    split; [exact Hr|]. intro T. now rewrite T in W.
  - apply andb_prop in W. destruct W as [_ W]. auto.
Qed.

Lemma update_rows_ok (rewrite_ : row -> result row) (where_ : row -> bool)
    (rows rows' : list row) :
  update_rows conflicts references rewrite_ where_ rows = Ok rows' ->
  unique conflicts rows' = true /\
  Forall2 (fun r r' =>
             if where_ r
             then rewrite_ r = Ok r' /\ references r' = true
             else r' = r) rows rows'.
Proof.
  unfold update_rows. intro H. unbind H.
  destruct (unique conflicts a) eqn:U; [|discriminate].
  destruct (written_referenced references where_ rows a) eqn:W;
    [|discriminate].
  injection H as <-. split; [exact U|].
  apply each_Forall2 in E.
  apply (written_referenced_Forall2 _ where_) in E; [|exact W].
  eapply Forall2_impl; [|exact E]. simpl. intros r r' [Hr Rr].
  destruct (where_ r); [auto|congruence].
Qed.

Lemma update_rows_stored (rewrite_ : row -> result row)
    (where_ : row -> bool) (rows rows' : list row) :
  (forall r r', rewrite_ r = Ok r' -> stored check r') ->
  update_rows conflicts references rewrite_ where_ rows = Ok rows' ->
  Forall (stored check) rows -> Forall (stored check) rows'.
Proof.
  intros Hw H. apply update_rows_ok in H. destruct H as [_ H].
  induction H as [|r r' rest rest' Hr _ IH]; intro S; [constructor|].
  inversion S; subst. constructor; [|auto].
  destruct (where_ r).
  - destruct Hr as [Hr _]. eauto.
  - now subst.
Qed.

(** A written row has its parent; an untouched one is as it was. *)
Lemma update_rows_references (rewrite_ : row -> result row)
    (where_ : row -> bool) (rows rows' : list row) :
  update_rows conflicts references rewrite_ where_ rows = Ok rows' ->
  Forall (fun r => references r = true) rows ->
  Forall (fun r => references r = true) rows'.
Proof.
  intros H. apply update_rows_ok in H. destruct H as [_ H].
  induction H as [|r r' rest rest' Hr _ IH]; intro S; [constructor|].
  inversion S; subst. constructor; [|auto].
  destruct (where_ r).
  - tauto.
  - now subst.
Qed.

Lemma update_rows_keeps (rewrite_ : row -> result row)
    (where_ : row -> bool) (rows rows' : list row) (x : row) :
  update_rows conflicts references rewrite_ where_ rows = Ok rows' ->
  In x rows -> where_ x = false -> In x rows'.
Proof.
  intros H. apply update_rows_ok in H. destruct H as [_ H].
  induction H as [|r r' rest rest' Hr _ IH]; simpl; intros I W; [tauto|].
  destruct I as [->|I]; [|auto].
  rewrite W in Hr. auto.
Qed.
End TableFacts.

Lemma insert_rows_do_nothing_ok {row : Type} (check : row -> result row)
    (conflicts arbiter : row -> row -> bool) (rs rows rows' : list row) :
  (forall r r', check r = Ok r' -> stored check r') ->
  (forall a b, conflicts a b = conflicts b a) ->
  insert_rows_do_nothing check conflicts arbiter rs rows = Ok rows' ->
  exists extra, rows' = rows ++ extra
    /\ Forall (stored check) extra
    /\ Forall (fun r => existsb (arbiter r) rows = false) extra
    /\ (unique conflicts rows = true -> unique conflicts rows' = true).
Proof.
  intros Hfix Hsym. revert rows rows'.
  induction rs as [|r rest IH]; simpl; intros rows rows' H.
  - injection H as <-. exists []. rewrite app_nil_r. auto.
  - unbind H. apply insert_row_do_nothing_ok in E.
    destruct E as (r' & W & [[A ->]|(A & C & _ & ->)]).
    + apply IH in H. exact H.
    + apply IH in H. destruct H as (extra & Heq & S & N & U).
      exists (r' :: extra).
      split; [rewrite Heq, <- app_assoc; reflexivity|].
      split; [constructor; eauto|].
      split.
      * constructor; [exact A|].
        eapply Forall_impl; [|exact N]. simpl. intros x Hx.
        rewrite existsb_app in Hx. now apply orb_false_elim in Hx.
      * intro U0. apply U. now apply unique_snoc.
Qed.

(** ** Every statement keeps the constraints *)

Lemma receipts_conflicts_sym (a b : Receipts.row) :
  Receipts.conflicts a b = Receipts.conflicts b a.
Proof. apply same_sym, N.eqb_sym. Qed.

Lemma line_items_conflicts_sym (a b : LineItems.row) :
  LineItems.conflicts a b = LineItems.conflicts b a.
Proof. apply same_sym, N.eqb_sym. Qed.

Lemma categories_conflicts_sym (a b : Categories.row) :
  Categories.conflicts a b = Categories.conflicts b a.
Proof.
  unfold Categories.conflicts, Categories.same_name.
  rewrite (same_sym N.eqb _ _ N.eqb_sym).
  rewrite (same_sym String.eqb _ _ String.eqb_sym). reflexivity.
Qed.

Lemma settings_conflicts_sym (a b : Settings.row) :
  Settings.conflicts a b = Settings.conflicts b a.
Proof. apply same_sym, String.eqb_sym. Qed.

Lemma Forall_filter {A : Type} (P : A -> Prop) (p : A -> bool) (l : list A) :
  Forall P l -> Forall P (filter p l).
Proof.
  rewrite !Forall_forall. intros H x I. apply filter_In in I. apply H, I.
Qed.

(** A line item that has its receipt among [ps] has it in any table that
    holds those of [ps] it is a child of. *)
Lemma references_moved (ps ps' : list Receipts.row) (li : LineItems.row) :
  (forall p, In p ps -> LineItems.child_of p li = true -> In p ps') ->
  LineItems.references ps li = true -> LineItems.references ps' li = true.
Proof.
  unfold LineItems.references. intros M.
  destruct (LineItems.receipt_id li) eqn:R; [|reflexivity].
  intro H. apply existsb_exists in H. destruct H as (p & I & C).
  apply existsb_exists. exists p. auto.
Qed.

Lemma set_setting_ok (e : env) (k v : string) (enc : bool)
    (rows rows' : list Settings.row) :
  Settings.set e k v enc rows = Ok rows' ->
  exists r, Settings.check (Settings.new_row e (k, v, enc)) = Ok r /\
    ((existsb (Settings.conflicts r) rows = true /\
      rows' = map (fun x => if Settings.conflicts r x then r else x) rows)
     \/ (existsb (Settings.conflicts r) rows = false
         /\ rows' = rows ++ [r])).
Proof.
  unfold Settings.set. intro H. unbind H. exists a. split; [exact E|].
  destruct (existsb (Settings.conflicts a) rows) eqn:C;
    injection H as <-; auto.
Qed.

(** Overwriting the rows that hold a key with a row of the same key moves
    no key. *)
Lemma settings_overwrite_key (r x : Settings.row) :
  Settings.key (if Settings.conflicts r x then r else x) = Settings.key x.
Proof.
  destruct (Settings.conflicts r x) eqn:C; [|reflexivity].
  apply same_string_eq in C. destruct C as (s & -> & ->). reflexivity.
Qed.

Lemma existsb_through_map {A B : Type} (f : A -> B) (p : B -> bool)
    (l : list A) :
  existsb p (map f l) = existsb (fun x => p (f x)) l.
Proof. induction l as [|x l IH]; simpl; [reflexivity|now rewrite IH]. Qed.

Lemma existsb_pointwise {A : Type} (p q : A -> bool) (l : list A) :
  (forall x, p x = q x) -> existsb p l = existsb q l.
Proof.
  intro H. induction l as [|x l IH]; simpl; [reflexivity|].
  now rewrite H, IH.
Qed.

Lemma settings_unique_by_key (f : Settings.row -> Settings.row)
    (rows : list Settings.row) :
  (forall x, Settings.key (f x) = Settings.key x) ->
  unique Settings.conflicts (map f rows) = unique Settings.conflicts rows.
Proof.
  intro K. induction rows as [|x rest IH]; simpl; [reflexivity|].
  rewrite IH. f_equal. f_equal.
  rewrite existsb_through_map. unfold Settings.conflicts. rewrite K.
  apply existsb_pointwise. intro y. now rewrite K.
Qed.

(** The trigger changes [updated_at] alone, which no coercion reads. *)
Lemma receipts_updated_inv (e : env) (set : Receipts.row -> Receipts.row)
    (r r' : Receipts.row) :
  updated Receipts.coerce Receipts.constrain
          (Receipts.update_updated_at_column e) set r = Ok r' ->
  exists c, Receipts.coerce (set r) = Ok c
            /\ r' = Receipts.update_updated_at_column e c
            /\ Receipts.constrain r' = Ok r'.
Proof.
  unfold updated. intro H.
  apply bind_ok in H. destruct H as (c & Hc & H).
  destruct (receipts_constrain_inv _ _ H) as (Heq & _).
  exists c. rewrite <- Heq in H. auto.
Qed.

Lemma receipts_coerce_trigger (e : env) (c : Receipts.row) :
  Receipts.coerce c = Ok c ->
  Receipts.coerce (Receipts.update_updated_at_column e c)
  = Ok (Receipts.update_updated_at_column e c).
Proof.
  intro H. apply receipts_coerce_inv in H.
  destruct H as (u & m & t & x & s & Hu & Hm & Ht & Hx & Hs & Hc).
  destruct c as [ci cu cm cp ct cx cs cc cup]. simpl in *.
  injection Hc as -> -> -> -> ->.
  unfold Receipts.coerce, Receipts.update_updated_at_column. simpl.
  rewrite Hu; simpl. rewrite Hm; simpl. rewrite Ht; simpl.
  rewrite Hx; simpl. rewrite Hs; simpl. reflexivity.
Qed.

Lemma receipts_updated_stored (e : env)
    (set : Receipts.row -> Receipts.row) (r r' : Receipts.row) :
  updated Receipts.coerce Receipts.constrain
          (Receipts.update_updated_at_column e) set r = Ok r' ->
  stored Receipts.check r'.
Proof.
  intro H. apply receipts_updated_inv in H.
  destruct H as (c & Hc & -> & Hn).
  unfold stored, Receipts.check.
  rewrite (receipts_coerce_trigger e c (receipts_coerce_fixed _ _ Hc)).
  exact Hn.
Qed.

Lemma line_items_updated_stored (set : LineItems.row -> LineItems.row)
    (r r' : LineItems.row) :
  updated LineItems.coerce LineItems.constrain no_trigger set r = Ok r' ->
  stored LineItems.check r'.
Proof. apply line_items_check_fixed. Qed.

Lemma categories_updated_stored (set : Categories.row -> Categories.row)
    (r r' : Categories.row) :
  updated Categories.coerce Categories.constrain no_trigger set r = Ok r' ->
  stored Categories.check r'.
Proof. apply categories_check_fixed. Qed.

Lemma exec_wf (e : env) (s : statement) (d d' : db) :
  wf d -> exec e s d = Ok d' -> wf d'.
Proof.
  intros [Sr Ur Sl Ul Fl Sc Uc Ss Us] H.
  destruct s as [v|set where_|where_|v|set where_|where_|vs|set where_|vs
                |k v enc]; simpl in H.
  - (* INSERT INTO receipts *)
    unbind H. injection H as <-.
    apply insert_row_ok in E. destruct E as (r' & W & C & ->).
    destruct W as [W _].
    constructor; simpl; auto.
    + apply Forall_app. split; [auto|].
      constructor; [|constructor]. eapply receipts_check_fixed; eauto.
    + apply unique_snoc; auto using receipts_conflicts_sym.
    + eapply Forall_impl; [|exact Fl]. simpl. intro li.
      apply references_moved. intros p I _. apply in_or_app. auto.
  - (* UPDATE receipts *)
    unbind H.
    destruct (forallb _ (line_items d)) eqn:F; [|discriminate].
    injection H as <-.
    constructor; simpl; auto.
    + eapply (update_rows_stored Receipts.check); [|exact E|exact Sr].
      intros r r'. apply receipts_updated_stored.
    + eapply update_rows_ok; eauto.
    + rewrite Forall_forall in *. intros li I.
      rewrite forallb_forall in F. specialize (F li I).
      destruct (children (touched where_ d) li) eqn:T; [exact F|].
      eapply references_moved; [|apply Fl, I].
      intros p Ip Cp. eapply update_rows_keeps; eauto.
      destruct (where_ p) eqn:Wp; [|reflexivity].
      assert (children (touched where_ d) li = true); [|congruence].
      apply existsb_exists. exists p. split; [|exact Cp].
      apply filter_In. auto.
  - (* DELETE FROM receipts *)
    injection H as <-.
    constructor; simpl; auto;
      try (apply Forall_filter; assumption);
      try (apply unique_filter; assumption).
    rewrite Forall_forall in *. intros li I.
    apply filter_In in I. destruct I as [I T].
    apply negb_true_iff in T.
    eapply references_moved; [|apply Fl, I].
    intros p Ip Cp. apply filter_In. split; [exact Ip|].
    apply negb_true_iff.
    destruct (where_ p) eqn:Wp; [|reflexivity].
    assert (children (touched where_ d) li = true); [|congruence].
    apply existsb_exists. exists p. split; [|exact Cp].
    apply filter_In. auto.
  - (* INSERT INTO line_items *)
    unbind H. injection H as <-.
    apply insert_row_ok in E. destruct E as (r' & W & C & ->).
    destruct W as [W R].
    constructor; simpl; auto.
    + apply Forall_app. split; [auto|].
      constructor; [|constructor]. eapply line_items_check_fixed; eauto.
    + apply unique_snoc; auto using line_items_conflicts_sym.
    + apply Forall_app. split; [auto|]. constructor; [exact R|constructor].
  - (* UPDATE line_items *)
    unbind H. injection H as <-.
    constructor; simpl; auto.
    + eapply (update_rows_stored LineItems.check); [|exact E|exact Sl].
      intros r r'. apply line_items_updated_stored.
    + eapply update_rows_ok; eauto.
    + eapply update_rows_references; eauto.
  - (* DELETE FROM line_items *)
    injection H as <-.
    constructor; simpl; auto;
      try (apply Forall_filter; assumption);
      try (apply unique_filter; assumption).
  - (* INSERT INTO categories ... ON CONFLICT (name) DO NOTHING *)
    unbind H. injection H as <-.
    apply insert_rows_do_nothing_ok in E;
      [|exact categories_check_fixed|exact categories_conflicts_sym].
    destruct E as (extra & -> & S & _ & U).
    constructor; simpl; auto.
    apply Forall_app. auto.
  - (* UPDATE categories *)
    unbind H. injection H as <-.
    constructor; simpl; auto.
    + eapply (update_rows_stored Categories.check); [|exact E|exact Sc].
      intros r r'. apply categories_updated_stored.
    + eapply update_rows_ok; eauto.
  - (* INSERT INTO settings ... ON CONFLICT (key) DO NOTHING *)
    unbind H. injection H as <-.
    apply insert_rows_do_nothing_ok in E;
      [|exact settings_check_fixed|exact settings_conflicts_sym].
    destruct E as (extra & -> & S & _ & U).
    constructor; simpl; auto.
    apply Forall_app. auto.
  - (* set(key, value, encrypted) *)
    unbind H. injection H as <-.
    apply set_setting_ok in E.
    destruct E as (r & Cr & [[C ->]|[C ->]]);
      apply settings_check_fixed in Cr; constructor; simpl; auto.
    + rewrite Forall_forall in *. intros x I.
      apply in_map_iff in I. destruct I as (y & <- & I).
      destruct (Settings.conflicts r y); auto.
    + rewrite settings_unique_by_key; auto using settings_overwrite_key.
    + apply Forall_app. auto.
    + apply unique_snoc; auto using settings_conflicts_sym.
Qed.

Lemma empty_wf (b : bool) : wf (empty_db b).
Proof. constructor; simpl; auto. Qed.

Lemma reachable_wf (d : db) : reachable d -> wf d.
Proof.
  induction 1 as [b|e s d d' _ IH H]; [apply empty_wf|].
  eapply exec_wf; eauto.
Qed.

Lemma run_reachable (e : env) (s : statement) (d : db) :
  reachable d -> reachable (run e s d).
Proof.
  intro R. unfold run. destruct (exec e s d) eqn:E; [|exact R].
  eapply reach_exec; eauto.
Qed.

(** ** Receipts and their line items *)

Lemma stored_line_item_receipt_id (li : LineItems.row) :
  stored LineItems.check li -> exists i, LineItems.receipt_id li = Some i.
Proof.
  intro H. apply line_items_check_inv in H. destruct H as [_ H].
  apply line_items_constrain_inv in H. destruct H as (_ & _ & H).
  destruct (LineItems.receipt_id li) as [i|]; [eauto|congruence].
Qed.

Lemma wf_no_orphans (d : db) : wf d -> no_orphans d.
Proof.
  intros W li I.
  pose proof (wf_line_items d W) as S.
  pose proof (wf_line_items_fk d W) as F.
  rewrite Forall_forall in S, F.
  destruct (stored_line_item_receipt_id li (S li I)) as (i & Ri).
  specialize (F li I). unfold LineItems.references in F. rewrite Ri in F.
  apply existsb_exists in F. destruct F as (p & Ip & C).
  apply same_uuid_eq in C. destruct C as (j & Pj & Lj).
  exists p, j. auto.
Qed.

(** X3.  A line item never outlives its receipt, whatever statements ran. *)
Lemma line_item_never_outlives_receipt (d : db) :
  reachable d -> no_orphans d.
Proof. intro R. apply wf_no_orphans, reachable_wf, R. Qed.

Lemma samples_with_item_reachable : reachable Samples.with_item.
Proof. do 2 apply run_reachable. apply reach_empty. Qed.

(** C1.  Deleting receipts always succeeds, and in that one statement the
    selected receipts go, every line item that references one of them goes
    with them and no other line item does; the store it leaves has no line
    item without its receipt. *)
Theorem delete_receipt_cascades (e : env) (where_ : Receipts.row -> bool)
    (d : db) :
  reachable d ->
  exists d',
    exec e (DELETE_receipts where_) d = Ok d'
    /\ (forall p, In p (receipts d')
                  <-> In p (receipts d) /\ where_ p = false)
    /\ (forall li, In li (line_items d')
                   <-> In li (line_items d)
                       /\ forall p, In p (receipts d) -> where_ p = true ->
                                    LineItems.child_of p li = false)
    /\ no_orphans d'.
Proof.
  intro R. eexists. split; [reflexivity|]. simpl.
  split; [|split].
  - intro p. unfold delete_rows. rewrite filter_In, negb_true_iff. tauto.
  - intro li. unfold delete_rows. rewrite filter_In, negb_true_iff.
    split; intros [I H]; (split; [exact I|]).
    + intros p Ip Wp.
      eapply (existsb_false_In (fun q => LineItems.child_of q li));
        [exact H|].
      apply filter_In. auto.
    + destruct (children (touched where_ d) li) eqn:T; [|reflexivity].
      apply existsb_exists in T. destruct T as (p & Ip & Cp).
      apply filter_In in Ip. destruct Ip as [Ip Wp].
      rewrite (H p Ip Wp) in Cp. discriminate.
  - apply wf_no_orphans.
    apply (exec_wf e (DELETE_receipts where_) d); [|reflexivity].
    apply reachable_wf, R.
Qed.

Lemma delete_receipt_cascades_witness :
  reachable Samples.with_item
  /\ exists d',
       exec Samples.e2 (DELETE_receipts Samples.everywhere)
            Samples.with_item = Ok d'
       /\ (forall p, In p (receipts d')
                     <-> In p (receipts Samples.with_item)
                         /\ Samples.everywhere p = false)
       /\ (forall li, In li (line_items d')
                      <-> In li (line_items Samples.with_item)
                          /\ forall p, In p (receipts Samples.with_item) ->
                               Samples.everywhere p = true ->
                               LineItems.child_of p li = false)
       /\ no_orphans d'.
Proof.
  split; [exact samples_with_item_reachable|].
  apply (delete_receipt_cascades Samples.e2 Samples.everywhere
           Samples.with_item).
  exact samples_with_item_reachable.
Defined.

(** Scenario E of the spec in small: one receipt and its line item, both
    rows gone after the DELETE. *)
Example delete_sample :
  exec Samples.e2 (DELETE_receipts Samples.everywhere) Samples.with_item
  = Ok (empty_db false)
  /\ List.length (receipts Samples.with_item) = 1%nat
  /\ List.length (line_items Samples.with_item) = 1%nat.
Proof. repeat split. Qed.

(** C8.  An UPDATE of receipts that succeeds leaves every row it selected
    with [updated_at] equal to the statement's CURRENT_TIMESTAMP, whatever
    columns its SET clause assigns ([updated_at] itself included), and
    leaves every other row as it was. *)
Theorem update_refreshes_updated_at (e : env)
    (set : Receipts.row -> Receipts.row) (where_ : Receipts.row -> bool)
    (d d' : db) :
  exec e (UPDATE_receipts set where_) d = Ok d' ->
  Forall2 (fun r r' =>
             if where_ r
             then Receipts.updated_at r' = Some (CURRENT_TIMESTAMP e)
             else r' = r)
          (receipts d) (receipts d').
Proof.
  simpl. intro H. unbind H.
  destruct (forallb _ (line_items d)); [|discriminate].
  injection H as <-. simpl.
  apply update_rows_ok in E. destruct E as [_ E].
  eapply Forall2_impl; [|exact E]. simpl. intros r r' Hr.
  destruct (where_ r); [|exact Hr].
  destruct Hr as [Hr _]. apply receipts_updated_inv in Hr.
  destruct Hr as (c & _ & -> & _). reflexivity.
Qed.

Lemma update_refreshes_updated_at_witness :
  exists d',
    exec Samples.e2 (UPDATE_receipts Samples.set_merchant Samples.everywhere)
         Samples.with_item = Ok d'
    /\ Forall2 (fun r r' =>
                  if Samples.everywhere r
                  then Receipts.updated_at r'
                       = Some (CURRENT_TIMESTAMP Samples.e2)
                  else r' = r)
               (receipts Samples.with_item) (receipts d').
Proof.
  eexists. split; [reflexivity|].
  apply (update_refreshes_updated_at Samples.e2 Samples.set_merchant
           Samples.everywhere Samples.with_item).
  reflexivity.
Defined.

(** ** The status of a receipt *)

Lemma stored_receipt_status (r : Receipts.row) :
  stored Receipts.check r -> Receipts.status r = None \/ status_listed r.
Proof.
  intro H. apply receipts_check_inv in H. destruct H as [_ H].
  apply receipts_constrain_inv in H. destruct H as (_ & _ & _ & E6).
  destruct (Receipts.status r) as [s|] eqn:S; [right|left; reflexivity].
  exists s. split; [exact S|].
  unfold sql_in, check_constraint in E6.
  destruct (existsb (String.eqb s) Receipts.statuses) eqn:X; [|discriminate].
  apply existsb_exists in X. destruct X as (t & It & Et).
  apply String.eqb_eq in Et. now subst.
Qed.

(** X1.  What the CHECK constraint does guarantee: a status that is not NULL is
    one of the three. *)
Lemma status_null_or_listed (d : db) :
  reachable d ->
  Forall (fun r => Receipts.status r = None \/ status_listed r) (receipts d).
Proof.
  intro R. eapply Forall_impl; [|apply (wf_receipts d (reachable_wf d R))].
  apply stored_receipt_status.
Qed.

(** X2.  A receipt inserted without a status column is stored as 'pending'. *)
Lemma insert_receipt_default_status (e : env) (v : Receipts.values)
    (d d' : db) :
  Receipts.v_status v = DEFAULT ->
  exec e (INSERT_receipts v) d = Ok d' ->
  exists r, receipts d' = receipts d ++ [r]
            /\ Receipts.status r = Some "pending".
Proof.
  simpl. intros D H. unbind H. injection H as <-.
  apply insert_row_ok in E. destruct E as (r & W & _ & ->).
  exists r. split; [reflexivity|].
  destruct W as [W _]. apply receipts_check_inv in W. destruct W as [W _].
  apply receipts_coerce_inv in W.
  destruct W as (u & m & t & x & s & _ & _ & _ & _ & Hs & ->). simpl.
  unfold Receipts.new_row in Hs. simpl in Hs. rewrite D in Hs. simpl in Hs.
  now injection Hs as <-.
Qed.

(** C2.  [INSERT INTO receipts (image_url, status) VALUES
    ('/app/storage/r1.jpg', NULL)] on the empty store succeeds: the CHECK
    constraint passes on NULL and the column is not declared NOT NULL, so
    the store then holds a receipt whose status is none of 'pending',
    'complete' and 'manual_review'. *)
Theorem null_status_is_stored :
  exists d',
    exec Samples.e0 (INSERT_receipts Samples.receipt_null_status)
         (empty_db false) = Ok d'
    /\ reachable d'
    /\ exists r, In r (receipts d')
                 /\ Receipts.status r = None /\ ~ status_listed r.
Proof.
  eexists. split; [reflexivity|]. split.
  - apply (reach_exec Samples.e0 (INSERT_receipts Samples.receipt_null_status)
             (empty_db false)); [apply reach_empty|reflexivity].
  - eexists. split; [left; reflexivity|]. split; [reflexivity|].
    intros (s & Hs & _). discriminate.
Qed.

(** ** The quantity of a line item *)

Lemma stored_line_item_quantity (li : LineItems.row) :
  stored LineItems.check li -> quantity_integer_or_null li.
Proof.
  unfold stored, LineItems.check, quantity_integer_or_null.
  intro H. apply line_items_check_inv in H. destruct H as [H _].
  apply line_items_coerce_inv in H.
  destruct H as (d & g & q0 & u & t & _ & _ & E3 & _ & _ & H).
  destruct (LineItems.quantity li) as [q|]; simpl in E3; [|exact I].
  apply bind_ok in E3. destruct E3 as (q' & Hq & E3).
  destruct (integer_range _ _ Hq) as [-> Hr]. exact Hr.
Qed.

Lemma samples_one_receipt_reachable : reachable Samples.one_receipt.
Proof. apply run_reachable. apply reach_empty. Qed.

Lemma samples_with_zero_quantity_reachable :
  reachable Samples.with_zero_quantity.
Proof. do 2 apply run_reachable. apply reach_empty. Qed.

(** C7, as stated, fails: a line item with quantity 0 is stored. *)
Lemma quantity_zero_is_stored :
  exec Samples.e1
       (INSERT_line_items (Samples.line_item_values (VALUE (Some 0))))
       Samples.one_receipt = Ok Samples.with_zero_quantity
  /\ reachable Samples.with_zero_quantity
  /\ ~ Forall quantity_at_least_one (line_items Samples.with_zero_quantity).
Proof.
  split; [reflexivity|].
  split; [exact samples_with_zero_quantity_reachable|].
  intro F. inversion F as [|li rest H _]; subst.
  destruct H as (q & Hq & Hle). simpl in Hq. injection Hq as <-. lia.
Qed.

(** C7, amended.  The quantity of every persisted line item is NULL or a
    four-byte integer (the table sets no lower bound), and a line item
    inserted without a quantity column is stored with quantity 1. *)
Theorem quantity_integer_default_one (d : db) :
  reachable d ->
  Forall quantity_integer_or_null (line_items d)
  /\ forall e v d',
       LineItems.v_quantity v = DEFAULT ->
       exec e (INSERT_line_items v) d = Ok d' ->
       exists li, line_items d' = line_items d ++ [li]
                  /\ LineItems.quantity li = Some 1.
Proof.
  intro R. split.
  - eapply Forall_impl; [|apply (wf_line_items d (reachable_wf d R))].
    apply stored_line_item_quantity.
  - simpl. intros e v d' D H. unbind H. injection H as <-.
    apply insert_row_ok in E. destruct E as (r & W & _ & ->).
    exists r. split; [reflexivity|].
    destruct W as [W _]. apply line_items_check_inv in W.
    destruct W as [W _]. apply line_items_coerce_inv in W.
    destruct W as (dd & g & q & u & t & _ & _ & E3 & _ & _ & ->). simpl.
    unfold LineItems.new_row in E3. simpl in E3. rewrite D in E3.
    simpl in E3. now injection E3 as <-.
Qed.

Lemma quantity_integer_default_one_witness :
  Forall quantity_integer_or_null (line_items Samples.one_receipt)
  /\ exists li,
       line_items Samples.with_item = line_items Samples.one_receipt ++ [li]
       /\ LineItems.quantity li = Some 1.
Proof.
  destruct (quantity_integer_default_one Samples.one_receipt
              samples_one_receipt_reachable) as [F D].
  split; [exact F|].
  apply (D Samples.e1 (Samples.line_item_values DEFAULT) Samples.with_item);
    reflexivity.
Defined.

(** ** Categories and settings: seeding and upserts *)

Lemma db_eta (d : db) : with_categories d (categories d) = d.
Proof. destruct d. reflexivity. Qed.

Lemma stored_category_name (c : Categories.row) :
  stored Categories.check c ->
  exists n, Categories.name c = Some n /\ varchar 100 n = Ok n.
Proof.
  intro H. apply categories_check_inv in H. destruct H as [Hc Hn].
  apply categories_constrain_inv in Hn. destruct Hn as (_ & _ & Hn).
  apply categories_coerce_inv in Hc. destruct Hc as (n & b & En & _ & Hc).
  destruct (Categories.name c) as [m|] eqn:Nm; [|congruence].
  exists m. split; [reflexivity|].
  simpl in En. apply bind_ok in En. destruct En as (m' & V & En).
  assert (n = Some m) by (rewrite Hc in Nm; exact Nm).
  subst n. injection En as ->. eapply varchar_fixed; eauto.
Qed.

Lemma wf_names_unique (d : db) : wf d -> names_unique d.
Proof.
  intro W. pose proof (wf_categories d W) as S.
  pose proof (wf_categories_unique d W) as U.
  unfold names_unique. induction (categories d) as [|c rest IH]; simpl.
  - split; constructor.
  - inversion S as [|? ? Sc Srest]; subst. simpl in U.
    apply andb_prop in U. destruct U as [U1 U2].
    destruct (IH Srest U2) as [N F].
    destruct (stored_category_name c Sc) as (n & Hn & _).
    split; [|constructor; [congruence|exact F]].
    constructor; [|exact N].
    intro I. apply in_map_iff in I. destruct I as (y & Hy & Iy).
    apply negb_true_iff in U1.
    pose proof (existsb_false_In _ _ _ U1 Iy) as C. simpl in C.
    unfold Categories.conflicts in C. apply orb_false_elim in C.
    destruct C as [_ C].
    assert (Categories.same_name c y = true); [|congruence].
    apply same_string_eq. exists n. split; congruence.
Qed.

(** ON CONFLICT DO NOTHING only ever appends: the statement leaves the
    table as it was, followed by rows whose name was not there. *)
Lemma insert_categories_appends (e : env)
    (vs : list (string * option decimal)) (d : db) :
  exists new,
    run e (INSERT_categories_DO_NOTHING vs) d
      = with_categories d (categories d ++ new)
    /\ Forall (fun c => existsb (Categories.same_name c) (categories d)
                        = false) new.
Proof.
  unfold run. simpl.
  destruct (insert_rows_do_nothing _ _ _ _ (categories d)) eqn:E; simpl.
  - apply insert_rows_do_nothing_ok in E;
      [|exact categories_check_fixed|exact categories_conflicts_sym].
    destruct E as (new & -> & _ & N & _). exists new. auto.
  - exists []. rewrite app_nil_r, db_eta. auto.
Qed.

Lemma insert_settings_appends (e : env)
    (vs : list (string * string * bool)) (d : db) :
  exists new,
    run e (INSERT_settings_DO_NOTHING vs) d
      = with_settings d (settings d ++ new)
    /\ Forall (fun c => existsb (Settings.conflicts c) (settings d) = false)
              new.
Proof.
  unfold run. simpl.
  destruct (insert_rows_do_nothing _ _ _ _ (settings d)) eqn:E; simpl.
  - apply insert_rows_do_nothing_ok in E;
      [|exact settings_check_fixed|exact settings_conflicts_sym].
    destruct E as (new & -> & _ & N & _). exists new. auto.
  - exists []. rewrite app_nil_r. destruct d. auto.
Qed.

Lemma find_app_found {A : Type} (p : A -> bool) (l new : list A) (x : A) :
  find p l = Some x -> find p (l ++ new) = Some x.
Proof.
  induction l as [|y l IH]; simpl; [discriminate|].
  destruct (p y); auto.
Qed.

(** C3.  Where a category of that name exists, the seed path's
    [INSERT ... ON CONFLICT (name) DO NOTHING] of the name leaves the whole
    store, that row and its budget limit included, exactly as it was (it
    succeeds without writing when the limit offered fits DECIMAL(10,2), and
    is rejected otherwise); and after any such INSERT no two categories
    share a name. *)
Theorem category_upsert_idempotent (e : env) (d : db) (n : string)
    (b : option decimal) :
  reachable d ->
  (exists c, In c (categories d) /\ Categories.name c = Some n) ->
  run e (INSERT_categories_DO_NOTHING [(n, b)]) d = d
  /\ (is_ok (nullable decimal_10_2 b) = true ->
      exec e (INSERT_categories_DO_NOTHING [(n, b)]) d = Ok d)
  /\ forall vs, names_unique (run e (INSERT_categories_DO_NOTHING vs) d).
Proof.
  intros R (c & Ic & Nc).
  pose proof (reachable_wf d R) as W.
  assert (V : varchar 100 n = Ok n).
  { pose proof (wf_categories d W) as S. rewrite Forall_forall in S.
    destruct (stored_category_name c (S c Ic)) as (m & Hm & Vm).
    congruence. }
  assert (X : forall i u,
             existsb (Categories.same_name
                        {| Categories.id := i; Categories.name := Some n;
                           Categories.monthly_budget_limit := u;
                           Categories.created_at :=
                             Some (CURRENT_TIMESTAMP e);
                           Categories.updated_at :=
                             if categories_has_updated_at d
                             then Some (CURRENT_TIMESTAMP e) else None |})
                     (categories d) = true).
  { intros i u. apply existsb_exists. exists c. split; [exact Ic|].
    apply same_string_eq. exists n. auto. }
  assert (E : forall b', nullable decimal_10_2 b = Ok b' ->
                exec e (INSERT_categories_DO_NOTHING [(n, b)]) d = Ok d).
  { intros b' Hb. simpl.
    unfold insert_row_do_nothing, Categories.check, Categories.coerce.
    simpl. rewrite V. simpl. rewrite Hb. simpl. rewrite X. simpl.
    now rewrite db_eta. }
  split; [|split].
  - unfold run. destruct (nullable decimal_10_2 b) as [b'|err] eqn:Hb.
    + now rewrite (E b' eq_refl).
    + simpl. unfold insert_row_do_nothing, Categories.check,
        Categories.coerce. simpl.
      rewrite V. simpl. rewrite Hb. reflexivity.
  - destruct (nullable decimal_10_2 b) as [b'|err] eqn:Hb; [|discriminate].
    intros _. now apply (E b').
  - intro vs. apply wf_names_unique, reachable_wf, run_reachable, R.
Qed.

Lemma samples_seeded_reachable :
  reachable (run Samples.e0 init_sql_seed (empty_db false)).
Proof. apply run_reachable, reach_empty. Qed.

Lemma category_upsert_idempotent_witness :
  let d := run Samples.e0 init_sql_seed (empty_db false) in
  List.length (categories d) = 11%nat
  /\ run Samples.e1 (INSERT_categories_DO_NOTHING [("Groceries", None)]) d = d
  /\ exec Samples.e1 (INSERT_categories_DO_NOTHING [("Groceries", None)]) d
     = Ok d
  /\ names_unique
       (run Samples.e1 (INSERT_categories_DO_NOTHING Categories.migration_seed)
            d).
Proof.
  intro d.
  destruct (category_upsert_idempotent Samples.e1 d "Groceries" None
              samples_seeded_reachable) as (H1 & H2 & H3).
  - eexists. split; [left; reflexivity|reflexivity].
  - split; [reflexivity|]. split; [exact H1|].
    split; [apply H2; reflexivity|apply H3].
Defined.

(** C9.  Running any of the three seed statements on any store leaves
    every category found by its name and every setting found by its key
    the same row as before (value, encrypted flag and budget limit
    included): each table is the old one, possibly followed by new rows,
    none of which takes a name or key that was present; receipts and line
    items are not touched. *)
Theorem seeding_keeps_existing_rows (e : env) (s : statement) (d : db) :
  In s seed_statements ->
  (forall n c, Categories.find_by_name n (categories d) = Some c ->
               Categories.find_by_name n (categories (run e s d)) = Some c)
  /\ (forall k r, Settings.find_by_key k (settings d) = Some r ->
                  Settings.find_by_key k (settings (run e s d)) = Some r)
  /\ (exists new,
        categories (run e s d) = categories d ++ new
        /\ Forall (fun c => existsb (Categories.same_name c) (categories d)
                            = false) new)
  /\ (exists new,
        settings (run e s d) = settings d ++ new
        /\ Forall (fun r => existsb (Settings.conflicts r) (settings d)
                            = false) new)
  /\ receipts (run e s d) = receipts d
  /\ line_items (run e s d) = line_items d.
Proof.
  intro I.
  assert (C : (exists vs, s = INSERT_categories_DO_NOTHING vs)
              \/ (exists vs, s = INSERT_settings_DO_NOTHING vs)).
  { simpl in I. destruct I as [<-|[<-|[<-|[]]]];
      [left|left|right]; eexists; reflexivity. }
  destruct C as [(vs & ->)|(vs & ->)].
  - destruct (insert_categories_appends e vs d) as (new & -> & N). simpl.
    repeat split; auto.
    + intros n c. apply find_app_found.
    + exists new. auto.
    + exists []. rewrite app_nil_r. auto.
  - destruct (insert_settings_appends e vs d) as (new & -> & N). simpl.
    repeat split; auto.
    + intros k r. apply find_app_found.
    + exists []. rewrite app_nil_r. auto.
    + exists new. auto.
Qed.

(** The theme was set to 'dark' after seeding; seeding again keeps it. *)
Lemma seeding_keeps_existing_rows_witness :
  Settings.find_by_key "theme" (settings Samples.themed)
  = Some {| Settings.key := Some "theme"; Settings.value := Some "dark";
            Settings.encrypted := Some false;
            Settings.updated_at := Some 1700000600 |}
  /\ Settings.find_by_key "theme"
       (settings (run Samples.e2 migration_seed_settings Samples.themed))
     = Some {| Settings.key := Some "theme"; Settings.value := Some "dark";
               Settings.encrypted := Some false;
               Settings.updated_at := Some 1700000600 |}.
Proof.
  split; [reflexivity|].
  apply (seeding_keeps_existing_rows Samples.e2 migration_seed_settings
           Samples.themed).
  - right. right. left. reflexivity.
  - reflexivity.
Defined.

(** ** The Settings Store's [set] *)

Lemma settings_new_row_checked (e : env) (k k' v : string) (enc : bool) :
  varchar 100 k = Ok k' ->
  Settings.check (Settings.new_row e (k, v, enc))
  = Ok {| Settings.key := Some k'; Settings.value := Some v;
          Settings.encrypted := Some enc;
          Settings.updated_at := Some (CURRENT_TIMESTAMP e) |}.
Proof.
  intro V. unfold Settings.check, Settings.coerce. simpl. now rewrite V.
Qed.

Lemma unique_at_most_one (k : string) (rows : list Settings.row) :
  unique Settings.conflicts rows = true ->
  (List.length (filter (has_key k) rows) <= 1)%nat.
Proof.
  induction rows as [|x rest IH]; simpl; intro U; [lia|].
  apply andb_prop in U. destruct U as [U1 U2]. specialize (IH U2).
  destruct (has_key k x) eqn:K; [|exact IH]. simpl.
  apply negb_true_iff in U1.
  assert (N : filter (has_key k) rest = []).
  { destruct (filter (has_key k) rest) as [|y l] eqn:F; [reflexivity|].
    assert (Iy : In y (filter (has_key k) rest)) by (rewrite F; now left).
    apply filter_In in Iy. destruct Iy as [Iy Ky].
    pose proof (existsb_false_In _ _ _ U1 Iy) as C. simpl in C.
    unfold has_key in K, Ky.
    apply same_string_eq in K. destruct K as (s & Hs & Kx).
    apply same_string_eq in Ky. destruct Ky as (t & Ht & Kt).
    assert (Settings.conflicts x y = true); [|congruence].
    apply same_string_eq. exists s. split; congruence. }
  rewrite N. simpl. lia.
Qed.

Lemma filter_overwritten (k : string) (r : Settings.row)
    (rows : list Settings.row) :
  has_key k r = true ->
  filter (has_key k) (map (fun x => if has_key k x then r else x) rows)
  = map (fun _ => r) (filter (has_key k) rows).
Proof.
  intro K. induction rows as [|x rest IH]; simpl; [reflexivity|].
  destruct (has_key k x) eqn:X; simpl.
  - rewrite K, IH. reflexivity.
  - rewrite X, IH. reflexivity.
Qed.

(** A [set] that passes the checks always succeeds, and leaves exactly one
    row under the key: the one just written. *)
Lemma set_leaves_one_row (e : env) (k k' v : string) (enc : bool) (d : db) :
  wf d -> varchar 100 k = Ok k' ->
  exists d', exec e (SET_setting k v enc) d = Ok d'
    /\ rows_with_key k' d'
       = [ {| Settings.key := Some k'; Settings.value := Some v;
              Settings.encrypted := Some enc;
              Settings.updated_at := Some (CURRENT_TIMESTAMP e) |} ].
Proof.
  intros W V. simpl. unfold Settings.set.
  rewrite (settings_new_row_checked e k k' v enc V). simpl.
  set (r := {| Settings.key := Some k'; Settings.value := Some v;
               Settings.encrypted := Some enc;
               Settings.updated_at := Some (CURRENT_TIMESTAMP e) |}).
  assert (K : has_key k' r = true) by (simpl; apply String.eqb_refl).
  change (Settings.conflicts r) with (has_key k').
  pose proof (unique_at_most_one k' _ (wf_settings_pk d W)) as L.
  unfold rows_with_key.
  destruct (existsb (has_key k') (settings d)) eqn:X;
    eexists; (split; [reflexivity|]); simpl.
  - rewrite (filter_overwritten k' r _ K).
    apply existsb_exists in X. destruct X as (x & Ix & Kx).
    assert (Fx : In x (filter (has_key k') (settings d)))
      by (apply filter_In; auto).
    destruct (filter (has_key k') (settings d)) as [|y [|z l]];
      simpl in *; [tauto|reflexivity|lia].
  - rewrite filter_app. simpl. rewrite K.
    assert (N : filter (has_key k') (settings d) = []).
    { destruct (filter (has_key k') (settings d)) as [|y l] eqn:F;
        [reflexivity|].
      assert (Iy : In y (filter (has_key k') (settings d)))
        by (rewrite F; now left).
      apply filter_In in Iy. destruct Iy as [Iy Ky].
      rewrite (existsb_false_In _ _ _ X Iy) in Ky. discriminate. }
    rewrite N. reflexivity.
Qed.

(** C4.  Two [set]s of one key in a row both succeed (the key fitting
    VARCHAR(100)), and afterwards the table holds exactly one row under
    that key, with the value, flag and timestamp of the second. *)
Theorem set_twice_last_write_wins (e1 e2 : env) (d : db)
    (k k' v1 v2 : string) (enc1 enc2 : bool) :
  reachable d -> varchar 100 k = Ok k' ->
  exists d1 d2,
    exec e1 (SET_setting k v1 enc1) d = Ok d1
    /\ exec e2 (SET_setting k v2 enc2) d1 = Ok d2
    /\ rows_with_key k' d2
       = [ {| Settings.key := Some k'; Settings.value := Some v2;
              Settings.encrypted := Some enc2;
              Settings.updated_at := Some (CURRENT_TIMESTAMP e2) |} ].
Proof.
  intros R V.
  destruct (set_leaves_one_row e1 k k' v1 enc1 d (reachable_wf d R) V)
    as (d1 & E1 & _).
  assert (R1 : reachable d1) by (eapply reach_exec; eauto).
  destruct (set_leaves_one_row e2 k k' v2 enc2 d1 (reachable_wf d1 R1) V)
    as (d2 & E2 & H2).
  exists d1, d2. auto.
Qed.

Lemma samples_seeded_settings_reachable :
  reachable (run Samples.e0 migration_seed_settings (empty_db true)).
Proof. apply run_reachable, reach_empty. Qed.

Lemma set_twice_last_write_wins_witness :
  exists d1 d2,
    exec Samples.e1 (SET_setting "theme" "dark" false)
         (run Samples.e0 migration_seed_settings (empty_db true)) = Ok d1
    /\ exec Samples.e2 (SET_setting "theme" "light" false) d1 = Ok d2
    /\ rows_with_key "theme" d2
       = [ {| Settings.key := Some "theme"; Settings.value := Some "light";
              Settings.encrypted := Some false;
              Settings.updated_at := Some (CURRENT_TIMESTAMP Samples.e2) |} ].
Proof.
  apply (set_twice_last_write_wins Samples.e1 Samples.e2
           (run Samples.e0 migration_seed_settings (empty_db true))
           "theme" "theme" "dark" "light" false false).
  - exact samples_seeded_settings_reachable.
  - reflexivity.
Defined.

(** ** What the constraints of [receipts] and [line_items] refuse *)

Lemma status_null_or_listed_witness :
  reachable Samples.one_receipt
  /\ Forall (fun r => Receipts.status r = None \/ status_listed r)
            (receipts Samples.one_receipt).
Proof.
  split; [exact samples_one_receipt_reachable|].
  apply (status_null_or_listed Samples.one_receipt).
  exact samples_one_receipt_reachable.
Defined.

Lemma insert_receipt_default_status_witness :
  exists r, receipts Samples.one_receipt = receipts (empty_db false) ++ [r]
            /\ Receipts.status r = Some "pending".
Proof.
  apply (insert_receipt_default_status Samples.e0 Samples.receipt_values
           (empty_db false) Samples.one_receipt); reflexivity.
Defined.

Lemma line_item_never_outlives_receipt_witness :
  reachable Samples.with_item /\ no_orphans Samples.with_item.
Proof.
  split; [exact samples_with_item_reachable|].
  apply (line_item_never_outlives_receipt Samples.with_item).
  exact samples_with_item_reachable.
Defined.

Lemma line_items_check_receipt_id (r r' : LineItems.row) :
  LineItems.check r = Ok r' ->
  LineItems.receipt_id r' = LineItems.receipt_id r.
Proof.
  intro H. apply line_items_check_inv in H. destruct H as [H _].
  apply line_items_coerce_inv in H.
  destruct H as (d & g & q & u & t & _ & _ & _ & _ & _ & ->). reflexivity.
Qed.

(** X4.  A line item is never inserted for a receipt that is not there: when no
    receipt has the id the INSERT gives as [receipt_id] (or it gives none),
    the statement fails and the store stays as it was. *)
Theorem line_item_needs_receipt (e : env) (v : LineItems.values) (d : db) :
  (forall p, In p (receipts d) ->
             LineItems.child_of p (LineItems.new_row e v) = false) ->
  (exists err, exec e (INSERT_line_items v) d = Err err)
  /\ run e (INSERT_line_items v) d = d.
Proof.
  intro H.
  assert (X : exists err, exec e (INSERT_line_items v) d = Err err).
  { simpl. unfold insert_row.
    destruct (LineItems.check (LineItems.new_row e v)) as [r'|err] eqn:C;
      simpl; [|eauto].
    destruct (existsb (LineItems.conflicts r') (line_items d));
      simpl; [eauto|].
    assert (R : LineItems.references (receipts d) r' = false).
    { unfold LineItems.references.
      destruct (LineItems.receipt_id r') as [i|] eqn:Ri.
      - destruct (existsb _ (receipts d)) eqn:X; [|reflexivity].
        apply existsb_exists in X. destruct X as (p & Ip & Cp).
        unfold LineItems.child_of in Cp.
        rewrite (line_items_check_receipt_id _ _ C) in Cp.
        specialize (H p Ip). unfold LineItems.child_of in H. congruence.
      - destruct (stored_line_item_receipt_id r'
                    (line_items_check_fixed _ _ C)) as (i & Hi).
        congruence. }
    rewrite R. simpl. eauto. }
  split; [exact X|]. destruct X as (err & X). unfold run. now rewrite X.
Qed.

Lemma line_item_needs_receipt_witness :
  (exists err,
     exec Samples.e1 (INSERT_line_items (Samples.line_item_values DEFAULT))
          (empty_db false) = Err err)
  /\ run Samples.e1 (INSERT_line_items (Samples.line_item_values DEFAULT))
         (empty_db false) = empty_db false.
Proof.
  apply (line_item_needs_receipt Samples.e1
           (Samples.line_item_values DEFAULT) (empty_db false)).
  intros p [].
Defined.

(** X5.  A receipt cannot be stored without its image: an INSERT that leaves
    [image_url] out, or gives NULL for it, always fails and leaves the store
    as it was; when the values of its columns fit their types the failure is
    a NOT NULL violation (when one does not, the type error comes first). *)
Theorem receipt_needs_image_url (e : env) (v : Receipts.values) (d : db) :
  Receipts.v_image_url v = DEFAULT \/ Receipts.v_image_url v = VALUE None ->
  (exists err, exec e (INSERT_receipts v) d = Err err)
  /\ run e (INSERT_receipts v) d = d
  /\ (forall c, Receipts.coerce (Receipts.new_row e v) = Ok c ->
                exec e (INSERT_receipts v) d = Err not_null_violation).
Proof.
  intro H.
  assert (U : Receipts.image_url (Receipts.new_row e v) = None)
    by (simpl; destruct H as [-> | ->]; reflexivity).
  assert (N : forall c, Receipts.coerce (Receipts.new_row e v) = Ok c ->
                exec e (INSERT_receipts v) d = Err not_null_violation).
  { intros c Hc. simpl. unfold insert_row, Receipts.check. rewrite Hc.
    apply receipts_coerce_inv in Hc.
    destruct Hc as (u & m & t & x & s & Hu & _ & _ & _ & _ & ->).
    rewrite U in Hu. simpl in Hu. injection Hu as <-.
    unfold Receipts.constrain. simpl.
    destruct (with_default _ (Receipts.v_id v)); reflexivity. }
  assert (X : exists err, exec e (INSERT_receipts v) d = Err err).
  { destruct (Receipts.coerce (Receipts.new_row e v)) as [c|err] eqn:Hc.
    - rewrite (N c eq_refl). eauto.
    - simpl. unfold insert_row, Receipts.check. rewrite Hc. simpl. eauto. }
  split; [exact X|]. split; [|exact N].
  destruct X as (err & X). unfold run. now rewrite X.
Qed.

Lemma receipt_needs_image_url_witness :
  (exists err,
     exec Samples.e0 (INSERT_receipts Samples.receipt_without_image)
          (empty_db false) = Err err)
  /\ run Samples.e0 (INSERT_receipts Samples.receipt_without_image)
         (empty_db false) = empty_db false
  /\ exec Samples.e0 (INSERT_receipts Samples.receipt_without_image)
          (empty_db false) = Err not_null_violation.
Proof.
  destruct (receipt_needs_image_url Samples.e0 Samples.receipt_without_image
              (empty_db false)) as (H1 & H2 & H3).
  - left. reflexivity.
  - split; [exact H1|]. split; [exact H2|]. eapply H3. reflexivity.
Defined.

Lemma substring_length_min (n : nat) (s : string) :
  String.length (substring 0 n s) = Nat.min n (String.length s).
Proof.
  revert s. induction n as [|n IH]; intros [|c s]; simpl; try reflexivity.
  now rewrite IH.
Qed.

(** What the CHECK constraint lets through was on the list as it was
    given: cutting trailing spaces never turns another string into a
    status. *)
Lemma receipts_coerce_status (r c : Receipts.row) (s : string) :
  Receipts.coerce r = Ok c -> Receipts.status r = Some s ->
  check_constraint (sql_in (Receipts.status c) Receipts.statuses) = Ok tt ->
  In s Receipts.statuses.
Proof.
  intros H S E6. apply receipts_coerce_inv in H.
  destruct H as (u & m & ta & x & s0 & _ & _ & _ & _ & E5 & ->).
  simpl in E6. rewrite S in E5. simpl in E5.
  apply bind_ok in E5. destruct E5 as (s' & V & E5). injection E5 as <-.
  unfold sql_in, check_constraint in E6.
  destruct (existsb (String.eqb s') Receipts.statuses) eqn:X; [|discriminate].
  apply existsb_exists in X. destruct X as (t & It & Et).
  apply String.eqb_eq in Et. subst t.
  unfold varchar in V. destruct (Nat.leb (String.length s) 50) eqn:L.
  - injection V as V. now subst s'.
  - destruct (all_spaces _); [|discriminate]. injection V as V. subst s'.
    apply Nat.leb_gt in L.
    pose proof (substring_length_min 50 s) as M.
    rewrite Nat.min_l in M by lia.
    simpl in It.
    destruct It as [H | [H | [H | []]]]; rewrite <- H in M; discriminate M.
Qed.

Lemma receipts_check_status (r r' : Receipts.row) (s : string) :
  Receipts.check r = Ok r' -> Receipts.status r = Some s ->
  In s Receipts.statuses.
Proof.
  intros H S. apply receipts_check_inv in H. destruct H as [Hc Hn].
  apply receipts_constrain_inv in Hn. destruct Hn as (_ & _ & _ & E6).
  eapply receipts_coerce_status; eauto.
Qed.

Lemma each_ok_all {row : Type} (f : row -> result row) (rows rows' : list row)
    (r : row) :
  each f rows = Ok rows' -> In r rows -> exists r', f r = Ok r'.
Proof.
  intros H I. apply each_Forall2 in H.
  induction H as [|x x' rest rest' Hx _ IH]; simpl in I; [tauto|].
  destruct I as [->|I]; eauto.
Qed.

(** X6.  A status outside the three of the CHECK constraint is never written,
    by an INSERT or by an UPDATE of any row: the statement fails. *)
Theorem unlisted_status_rejected (s : string) :
  ~ In s Receipts.statuses ->
  (forall e v d,
     Receipts.v_status v = VALUE (Some s) ->
     exists err, exec e (INSERT_receipts v) d = Err err)
  /\ (forall e set where_ d r,
        In r (receipts d) -> where_ r = true ->
        Receipts.status (set r) = Some s ->
        exists err, exec e (UPDATE_receipts set where_) d = Err err).
Proof.
  intro N. split.
  - intros e v d S. simpl. unfold insert_row.
    destruct (Receipts.check (Receipts.new_row e v)) as [r'|err] eqn:C;
      simpl; [|eauto].
    exfalso. apply N. eapply receipts_check_status; [exact C|].
    simpl. now rewrite S.
  - intros e set where_ d r I W S. simpl. unfold update_rows.
    destruct (each _ (receipts d)) as [rows'|err] eqn:E; simpl; [|eauto].
    exfalso. destruct (each_ok_all _ _ _ r E I) as (r' & Hr).
    rewrite W in Hr. apply receipts_updated_inv in Hr.
    destruct Hr as (c & Hc & -> & Hn).
    apply receipts_constrain_inv in Hn. destruct Hn as (_ & _ & _ & E6).
    apply N. eapply receipts_coerce_status; [exact Hc|exact S|exact E6].
Qed.

Lemma unlisted_status_rejected_witness :
  (exists err,
     exec Samples.e1 (INSERT_receipts Samples.receipt_status_done)
          Samples.one_receipt = Err err)
  /\ (exists err,
        exec Samples.e1
             (UPDATE_receipts Samples.set_status_done Samples.everywhere)
             Samples.one_receipt = Err err).
Proof.
  assert (N : ~ In "done" Receipts.statuses).
  { simpl. intros [H | [H | [H | []]]]; discriminate H. }
  destruct (unlisted_status_rejected "done" N) as [HI HU].
  split.
  - apply (HI Samples.e1 Samples.receipt_status_done Samples.one_receipt).
    reflexivity.
  - apply (HU Samples.e1 Samples.set_status_done Samples.everywhere
              Samples.one_receipt
              (pending_receipt Samples.e0 "/app/storage/r1.jpg")).
    + left. reflexivity.
    + reflexivity.
    + reflexivity.
Defined.

(** ** What every stored row satisfies *)

Lemma nullable_varchar_fits (n : nat) (v v' : option string) :
  nullable (varchar n) v = Ok v' -> fits n v'.
Proof.
  destruct v as [s|]; simpl; intro H.
  - unbind H. injection H as <-. simpl. eapply varchar_length; eauto.
  - injection H as <-. exact I.
Qed.

Lemma nullable_decimal_ok (v v' : option decimal) :
  nullable decimal_10_2 v = Ok v' -> amount_ok v'.
Proof.
  destruct v as [x|]; simpl; intro H.
  - unbind H. injection H as <-. simpl. unfold decimal_10_2 in E.
    destruct (Z.ltb_spec (Z.abs x) (10 ^ 10)); [|discriminate].
    now injection E as <-.
  - injection H as <-. exact I.
Qed.

Lemma stored_receipt_columns (r : Receipts.row) :
  stored Receipts.check r -> receipt_columns_ok r.
Proof.
  intro H. apply receipts_check_inv in H. destruct H as [Hc Hn].
  apply receipts_constrain_inv in Hn. destruct Hn as (_ & Ni & Nu & _).
  apply receipts_coerce_inv in Hc.
  destruct Hc as (u & m & t & x & s & Hu & Hm & Ht & Hx & Hs & Heq).
  destruct r as [ri ru rm rp rt rx rs rc rup]. simpl in *.
  injection Heq as -> -> -> -> ->.
  unfold receipt_columns_ok. simpl.
  repeat split; eauto using nullable_varchar_fits, nullable_decimal_ok.
Qed.

Lemma stored_line_item_columns (r : LineItems.row) :
  stored LineItems.check r -> line_item_columns_ok r.
Proof.
  intro H. apply line_items_check_inv in H. destruct H as [Hc Hn].
  apply line_items_constrain_inv in Hn. destruct Hn as (_ & Ni & Np).
  apply line_items_coerce_inv in Hc.
  destruct Hc as (d & g & q & u & t & Hd & Hg & Hq & Hu & Ht & Heq).
  destruct r as [ri rp rd rg rq ru rt rc]. simpl in *.
  injection Heq as -> -> -> -> ->.
  unfold line_item_columns_ok. simpl.
  repeat split; eauto using nullable_varchar_fits, nullable_decimal_ok.
Qed.

Lemma stored_category_columns (r : Categories.row) :
  stored Categories.check r -> category_columns_ok r.
Proof.
  intro H. apply categories_check_inv in H. destruct H as [Hc Hn].
  apply categories_constrain_inv in Hn. destruct Hn as (_ & Ni & Nn).
  apply categories_coerce_inv in Hc.
  destruct Hc as (n & b & En & Eb & Heq).
  destruct r as [ri rn rb rc rup]. simpl in *.
  injection Heq as -> ->.
  unfold category_columns_ok. simpl.
  repeat split; eauto using nullable_varchar_fits, nullable_decimal_ok.
Qed.

Lemma stored_setting_columns (r : Settings.row) :
  stored Settings.check r -> setting_columns_ok r.
Proof.
  intro H. apply settings_check_inv in H. destruct H as [Hc Hn].
  apply settings_constrain_inv in Hn. destruct Hn as (_ & Nk & Nv).
  apply settings_coerce_inv in Hc. destruct Hc as (k0 & Ek & Heq).
  destruct r as [rk rv re rup]. simpl in *.
  injection Heq as ->.
  unfold setting_columns_ok. simpl.
  repeat split; eauto using nullable_varchar_fits.
Qed.

(** X7.  Whatever statements ran, every stored value fits its column: the
    NOT NULL columns hold a value, every text is within the declared width,
    every amount within DECIMAL(10,2). *)
Theorem stored_values_fit_columns (d : db) :
  reachable d ->
  Forall receipt_columns_ok (receipts d)
  /\ Forall line_item_columns_ok (line_items d)
  /\ Forall category_columns_ok (categories d)
  /\ Forall setting_columns_ok (settings d).
Proof.
  intro R. pose proof (reachable_wf d R) as W.
  repeat split.
  - eapply Forall_impl; [|apply (wf_receipts d W)].
    apply stored_receipt_columns.
  - eapply Forall_impl; [|apply (wf_line_items d W)].
    apply stored_line_item_columns.
  - eapply Forall_impl; [|apply (wf_categories d W)].
    apply stored_category_columns.
  - eapply Forall_impl; [|apply (wf_settings d W)].
    apply stored_setting_columns.
Qed.

Lemma stored_values_fit_columns_witness :
  reachable Samples.with_item
  /\ Forall receipt_columns_ok (receipts Samples.with_item)
  /\ Forall line_item_columns_ok (line_items Samples.with_item)
  /\ Forall category_columns_ok (categories Samples.with_item)
  /\ Forall setting_columns_ok (settings Samples.with_item).
Proof.
  split; [exact samples_with_item_reachable|].
  apply (stored_values_fit_columns Samples.with_item).
  exact samples_with_item_reachable.
Defined.

Lemma unique_NoDup {row : Type} (key : row -> option uuid)
    (rows : list row) :
  unique (fun a b => same N.eqb (key a) (key b)) rows = true ->
  Forall (fun r => key r <> None) rows ->
  NoDup (map key rows).
Proof.
  induction rows as [|x rest IH]; simpl; intros U F; [constructor|].
  apply andb_prop in U. destruct U as [U1 U2].
  inversion F as [|? ? Fx Frest]; subst.
  constructor; [|auto].
  intro I. apply in_map_iff in I. destruct I as (y & Ky & Iy).
  apply negb_true_iff in U1.
  pose proof (existsb_false_In _ _ _ U1 Iy) as C. simpl in C.
  destruct (key x) as [i|] eqn:Kx; [|congruence].
  rewrite Ky in C. simpl in C. rewrite N.eqb_refl in C. discriminate.
Qed.

(** X8.  The primary keys hold: in every store the statements can produce, no
    two receipts share an id and no two line items do. *)
Theorem primary_keys_unique (d : db) :
  reachable d ->
  NoDup (map Receipts.id (receipts d))
  /\ NoDup (map LineItems.id (line_items d)).
Proof.
  intro R. pose proof (reachable_wf d R) as W. split.
  - apply unique_NoDup; [exact (wf_receipts_pk d W)|].
    eapply Forall_impl; [|apply (wf_receipts d W)].
    intros r S. apply stored_receipt_columns in S. apply S.
  - apply unique_NoDup; [exact (wf_line_items_pk d W)|].
    eapply Forall_impl; [|apply (wf_line_items d W)].
    intros r S. apply stored_line_item_columns in S. apply S.
Qed.

Lemma primary_keys_unique_witness :
  reachable Samples.with_item
  /\ NoDup (map Receipts.id (receipts Samples.with_item))
  /\ NoDup (map LineItems.id (line_items Samples.with_item)).
Proof.
  split; [exact samples_with_item_reachable|].
  apply (primary_keys_unique Samples.with_item).
  exact samples_with_item_reachable.
Defined.

(** ** Creating and deleting receipts *)

Lemma only_image_url_checked (e : env) (u : string) :
  (String.length u <= 512)%nat ->
  Receipts.check (Receipts.new_row e (only_image_url u))
  = Ok (pending_receipt e u).
Proof.
  intro L.
  assert (V : nullable (varchar 512) (Some u) = Ok (Some u))
    by (unfold nullable; now rewrite (varchar_short 512 u L)).
  unfold Receipts.check, Receipts.coerce.
  change (Receipts.image_url (Receipts.new_row e (only_image_url u)))
    with (Some u).
  rewrite V. reflexivity.
Qed.

(** X10.  An INSERT that gives only the image: it succeeds exactly when the
    generated id is not taken, and then appends one receipt, 'pending', with
    both timestamps at CURRENT_TIMESTAMP and every other column NULL; when the
    id is taken it is a unique violation. *)
Theorem insert_receipt_succeeds (e : env) (u : string) (d : db) :
  (String.length u <= 512)%nat ->
  ((forall p, In p (receipts d) ->
              Receipts.id p <> Some (uuid_generate_v4 e 0)) ->
   exec e (INSERT_receipts (only_image_url u)) d
   = Ok (with_receipts d (receipts d ++ [pending_receipt e u])))
  /\ ((exists p, In p (receipts d)
                 /\ Receipts.id p = Some (uuid_generate_v4 e 0)) ->
      exec e (INSERT_receipts (only_image_url u)) d = Err unique_violation).
Proof.
  intro L. simpl. unfold insert_row.
  rewrite (only_image_url_checked e u L). simpl. split.
  - intro F.
    destruct (existsb _ (receipts d)) eqn:X; [|reflexivity].
    apply existsb_exists in X. destruct X as (p & Ip & Cp).
    apply same_uuid_eq in Cp. destruct Cp as (i & Hi & Hp).
    simpl in Hi. exfalso. apply (F p Ip). congruence.
  - intros (p & Ip & Hp).
    assert (X : existsb (Receipts.conflicts (pending_receipt e u))
                        (receipts d) = true).
    { apply existsb_exists. exists p. split; [exact Ip|].
      apply same_uuid_eq. exists (uuid_generate_v4 e 0).
      split; [reflexivity|exact Hp]. }
    now rewrite X.
Qed.

Lemma insert_receipt_succeeds_witness :
  exec Samples.e0 (INSERT_receipts (only_image_url "/app/storage/r1.jpg"))
       (empty_db false)
  = Ok (with_receipts (empty_db false)
          [pending_receipt Samples.e0 "/app/storage/r1.jpg"])
  /\ exec Samples.e0
          (INSERT_receipts (only_image_url "/app/storage/r2.png"))
          Samples.one_receipt = Err unique_violation.
Proof.
  split.
  - apply (insert_receipt_succeeds Samples.e0 "/app/storage/r1.jpg"
             (empty_db false)); [simpl; lia|].
    intros p [].
  - apply (insert_receipt_succeeds Samples.e0 "/app/storage/r2.png"
             Samples.one_receipt); [simpl; lia|].
    eexists. split; [left; reflexivity|reflexivity].
Defined.

Lemma filter_all {A : Type} (p : A -> bool) (l : list A) :
  (forall x, In x l -> p x = true) -> filter p l = l.
Proof.
  induction l as [|x l IH]; simpl; intro H; [reflexivity|].
  rewrite (H x (or_introl eq_refl)), IH; auto.
Qed.

Lemma filter_none {A : Type} (p : A -> bool) (l : list A) :
  (forall x, In x l -> p x = false) -> filter p l = [].
Proof.
  induction l as [|x l IH]; simpl; intro H; [reflexivity|].
  rewrite (H x (or_introl eq_refl)), IH; auto.
Qed.

(** X11.  Inserting a receipt and deleting it again by its id gives back the
    store as it was: no other receipt and no line item is lost. *)
Theorem insert_then_delete_receipt (e e' : env) (v : Receipts.values)
    (d d1 : db) :
  reachable d ->
  exec e (INSERT_receipts v) d = Ok d1 ->
  exists r i,
    receipts d1 = receipts d ++ [r]
    /\ Receipts.id r = Some i
    /\ exec e' (DELETE_receipts (id_is i)) d1 = Ok d.
Proof.
  intros R H. simpl in H. unbind H. injection H as <-.
  apply insert_row_ok in E. destruct E as (r & W & C & ->).
  destruct W as [W _].
  apply receipts_check_fixed in W.
  destruct (stored_receipt_columns r W) as (Hid & _).
  destruct (Receipts.id r) as [i|] eqn:Ri; [|congruence].
  exists r, i. split; [reflexivity|]. split; [exact Ri|].
  assert (K : forall x, In x (receipts d) -> id_is i x = false).
  { intros x Ix. pose proof (existsb_false_In _ _ _ C Ix) as Cx.
    unfold Receipts.conflicts in Cx. rewrite Ri in Cx. exact Cx. }
  assert (Kr : id_is i r = true).
  { unfold id_is. rewrite Ri. simpl. apply N.eqb_refl. }
  simpl. unfold touched, delete_rows. simpl.
  rewrite !filter_app. simpl. rewrite Kr. simpl.
  rewrite (filter_none (id_is i) (receipts d) K).
  rewrite (filter_all _ (receipts d))
    by (intros x Ix; now rewrite (K x Ix)).
  rewrite app_nil_r. simpl.
  rewrite (filter_all _ (line_items d)).
  - destruct d. reflexivity.
  - intros li Ili. rewrite orb_false_r. apply negb_true_iff.
    destruct (wf_no_orphans d (reachable_wf d R) li Ili)
      as (p & j & Ip & Pj & Lj).
    unfold LineItems.child_of. rewrite Ri, Lj. simpl.
    specialize (K p Ip). unfold id_is in K. rewrite Pj in K. exact K.
Qed.

Lemma insert_then_delete_receipt_witness :
  exists r i,
    receipts Samples.one_receipt = receipts (empty_db false) ++ [r]
    /\ Receipts.id r = Some i
    /\ exec Samples.e1 (DELETE_receipts (id_is i)) Samples.one_receipt
       = Ok (empty_db false).
Proof.
  apply (insert_then_delete_receipt Samples.e0 Samples.e1
           Samples.receipt_values (empty_db false) Samples.one_receipt).
  - apply reach_empty.
  - reflexivity.
Defined.

(** X12.  Deleting the same receipts a second time changes nothing. *)
Theorem delete_receipts_twice (e e' : env) (where_ : Receipts.row -> bool)
    (d d1 : db) :
  exec e (DELETE_receipts where_) d = Ok d1 ->
  exec e' (DELETE_receipts where_) d1 = Ok d1.
Proof.
  simpl. intro H. injection H as <-. simpl.
  unfold touched, delete_rows. simpl.
  assert (T : filter where_
                (filter (fun r => negb (where_ r)) (receipts d)) = []).
  { apply filter_none. intros x Ix. apply filter_In in Ix.
    destruct Ix as [_ Ix]. now apply negb_true_iff in Ix. }
  rewrite T. f_equal. f_equal.
  - apply filter_all. intros x Ix. apply filter_In in Ix. tauto.
  - apply filter_all. reflexivity.
Qed.

Lemma delete_receipts_twice_witness :
  exec Samples.e2 (DELETE_receipts Samples.everywhere) (empty_db false)
  = Ok (empty_db false).
Proof.
  apply (delete_receipts_twice Samples.e2 Samples.e2 Samples.everywhere
           Samples.with_item (empty_db false)).
  reflexivity.
Defined.

(** ** The trigger touches [updated_at] and nothing else *)

(** X13.  An UPDATE of receipts stores, in every row it selects, the values
    its SET clause gives (as the column types take them) in every column but
    [updated_at], which is CURRENT_TIMESTAMP; it changes no other row and no
    other table. *)
Theorem update_touches_only_updated_at (e : env)
    (set : Receipts.row -> Receipts.row) (where_ : Receipts.row -> bool)
    (d d' : db) :
  exec e (UPDATE_receipts set where_) d = Ok d' ->
  Forall2 (fun r r' =>
             if where_ r
             then exists c,
                 Receipts.coerce (set r) = Ok c
                 /\ Receipts.id r' = Receipts.id c
                 /\ Receipts.image_url r' = Receipts.image_url c
                 /\ Receipts.merchant_name r' = Receipts.merchant_name c
                 /\ Receipts.purchase_date r' = Receipts.purchase_date c
                 /\ Receipts.total_amount r' = Receipts.total_amount c
                 /\ Receipts.tax_amount r' = Receipts.tax_amount c
                 /\ Receipts.status r' = Receipts.status c
                 /\ Receipts.created_at r' = Receipts.created_at c
                 /\ Receipts.updated_at r' = Some (CURRENT_TIMESTAMP e)
             else r' = r)
          (receipts d) (receipts d')
  /\ line_items d' = line_items d
  /\ categories d' = categories d
  /\ settings d' = settings d.
Proof.
  simpl. intro H. unbind H.
  destruct (forallb _ (line_items d)); [|discriminate].
  injection H as <-. simpl. repeat split.
  apply update_rows_ok in E. destruct E as [_ E].
  eapply Forall2_impl; [|exact E]. simpl. intros r r' Hr.
  destruct (where_ r); [|exact Hr].
  destruct Hr as [Hr _]. apply receipts_updated_inv in Hr.
  destruct Hr as (c & Hc & -> & _).
  exists c. simpl. auto 12.
Qed.

Lemma update_touches_only_updated_at_witness :
  exists d',
    exec Samples.e2 (UPDATE_receipts Samples.set_merchant Samples.everywhere)
         Samples.with_item = Ok d'
    /\ Forall2 (fun r r' =>
                  if Samples.everywhere r
                  then exists c,
                      Receipts.coerce (Samples.set_merchant r) = Ok c
                      /\ Receipts.id r' = Receipts.id c
                      /\ Receipts.image_url r' = Receipts.image_url c
                      /\ Receipts.merchant_name r' = Receipts.merchant_name c
                      /\ Receipts.purchase_date r' = Receipts.purchase_date c
                      /\ Receipts.total_amount r' = Receipts.total_amount c
                      /\ Receipts.tax_amount r' = Receipts.tax_amount c
                      /\ Receipts.status r' = Receipts.status c
                      /\ Receipts.created_at r' = Receipts.created_at c
                      /\ Receipts.updated_at r'
                         = Some (CURRENT_TIMESTAMP Samples.e2)
                  else r' = r)
               (receipts Samples.with_item) (receipts d')
    /\ line_items d' = line_items Samples.with_item
    /\ categories d' = categories Samples.with_item
    /\ settings d' = settings Samples.with_item.
Proof.
  eexists. split; [reflexivity|].
  apply (update_touches_only_updated_at Samples.e2 Samples.set_merchant
           Samples.everywhere Samples.with_item).
  reflexivity.
Defined.

(** ** Seeding *)

Lemma existsb_find {A : Type} (p : A -> bool) (l : list A) :
  existsb p l = true -> exists x, find p l = Some x.
Proof.
  induction l as [|y l IH]; simpl; [discriminate|].
  destruct (p y); simpl; eauto.
Qed.

Lemma find_app_missing {A : Type} (p : A -> bool) (l new : list A) :
  find p l = None -> find p (l ++ new) = find p new.
Proof.
  induction l as [|y l IH]; simpl; [reflexivity|].
  destruct (p y); [discriminate|exact IH].
Qed.

(** After INSERT ... ON CONFLICT DO NOTHING every proposed row has a row
    under its arbiter key, and the rows added are proposed rows as checked. *)
Lemma do_nothing_present {row : Type} (check : row -> result row)
    (conflicts arbiter : row -> row -> bool) (rs rows rows' : list row) :
  (forall r r', check r = Ok r' -> arbiter r' r' = true) ->
  insert_rows_do_nothing check conflicts arbiter rs rows = Ok rows' ->
  (exists new, rows' = rows ++ new
               /\ Forall (fun x => exists r, In r rs /\ check r = Ok x) new)
  /\ forall r, In r rs ->
       exists r', check r = Ok r' /\ existsb (arbiter r') rows' = true.
Proof.
  intro Hrefl. revert rows rows'.
  induction rs as [|r rest IH]; simpl; intros rows rows' H.
  - injection H as <-. split; [|intros r []].
    exists []. rewrite app_nil_r. auto.
  - unbind H. apply insert_row_do_nothing_ok in E.
    destruct E as (r' & W & Hcase).
    destruct (IH _ _ H) as ((new & Hnew & Fnew) & Hall).
    assert (Fnew' : Forall (fun x => exists r0, (r = r0 \/ In r0 rest)
                                                /\ check r0 = Ok x) new).
    { eapply Forall_impl; [|exact Fnew]. simpl.
      intros x (r0 & I0 & C0). eauto. }
    destruct Hcase as [[A ->]|(A & C & _ & ->)].
    + split; [exists new; auto|].
      intros r0 [<-|I0]; [|auto].
      exists r'. split; [exact W|].
      rewrite Hnew, existsb_app, A. reflexivity.
    + split.
      * exists (r' :: new). rewrite Hnew, <- app_assoc.
        split; [reflexivity|]. constructor; eauto.
      * intros r0 [<-|I0]; [|auto].
        exists r'. split; [exact W|].
        rewrite Hnew, !existsb_app. simpl.
        rewrite (Hrefl _ _ W). simpl. now rewrite orb_true_r.
Qed.

(** When every proposed row already has a row under its arbiter key, the
    statement succeeds and writes nothing. *)
Lemma do_nothing_noop {row : Type} (check : row -> result row)
    (conflicts arbiter : row -> row -> bool) (rs rows : list row) :
  (forall r, In r rs ->
     exists r', check r = Ok r' /\ existsb (arbiter r') rows = true) ->
  insert_rows_do_nothing check conflicts arbiter rs rows = Ok rows.
Proof.
  induction rs as [|r rest IH]; simpl; intro H; [reflexivity|].
  destruct (H r (or_introl eq_refl)) as (r' & C & A).
  unfold insert_row_do_nothing. rewrite C. simpl. rewrite A. simpl.
  apply IH. auto.
Qed.

(** When the arbiter is the only unique index, nothing can fail but the
    checks. *)
Lemma do_nothing_total {row : Type} (check : row -> result row)
    (conflicts : row -> row -> bool) (rs rows : list row) :
  (forall r, In r rs -> exists r', check r = Ok r') ->
  exists rows', insert_rows_do_nothing check conflicts conflicts rs rows
                = Ok rows'.
Proof.
  revert rows. induction rs as [|r rest IH]; simpl; intros rows H; [eauto|].
  destruct (H r (or_introl eq_refl)) as (r' & C).
  unfold insert_row_do_nothing. rewrite C. simpl.
  destruct (existsb (conflicts r') rows); simpl; auto.
Qed.

Lemma unique_middle {row : Type} (conflicts : row -> row -> bool)
    (l1 l2 : list row) (r : row) :
  (forall a b, conflicts a b = conflicts b a) ->
  unique conflicts (l1 ++ r :: l2) = true ->
  existsb (conflicts r) l1 = false.
Proof.
  intro Hsym. induction l1 as [|x l1 IH]; simpl; intro U; [reflexivity|].
  apply andb_prop in U. destruct U as [U1 U2].
  rewrite (IH U2), orb_false_r.
  apply negb_true_iff in U1. rewrite existsb_app in U1.
  apply orb_false_elim in U1. destruct U1 as [_ U1]. simpl in U1.
  apply orb_false_elim in U1. now rewrite Hsym.
Qed.

(** Rows that pass the checks as they are and collide with nothing are all
    appended, in order. *)
Lemma do_nothing_all_new {row : Type} (check : row -> result row)
    (conflicts arbiter : row -> row -> bool) (rs rows : list row) :
  (forall a b, conflicts a b = conflicts b a) ->
  (forall a b, arbiter a b = true -> conflicts a b = true) ->
  Forall (fun r => check r = Ok r) rs ->
  unique conflicts (rows ++ rs) = true ->
  insert_rows_do_nothing check conflicts arbiter rs rows = Ok (rows ++ rs).
Proof.
  intros Hsym Harb F. revert rows.
  induction F as [|r rest C _ IH]; simpl; intros rows U.
  - now rewrite app_nil_r.
  - unfold insert_row_do_nothing. rewrite C. simpl.
    pose proof (unique_middle conflicts rows rest r Hsym U) as N.
    assert (A : existsb (arbiter r) rows = false).
    { destruct (existsb (arbiter r) rows) eqn:X; [|reflexivity].
      apply existsb_exists in X. destruct X as (x & Ix & Ax).
      apply Harb in Ax. rewrite (existsb_false_In _ _ _ N Ix) in Ax.
      discriminate Ax. }
    rewrite A, N. simpl.
    replace (rows ++ r :: rest) with ((rows ++ [r]) ++ rest)
      by (now rewrite <- app_assoc).
    apply IH. now rewrite <- app_assoc.
Qed.

Lemma settings_seed_checked (e : env) :
  Forall (fun v => Settings.check (Settings.new_row e v)
                   = Ok (Settings.new_row e v)) Settings.seed.
Proof. repeat constructor. Qed.

Lemma settings_seed_keys (e : env) (v : string * string * bool)
    (k w : string) (enc : bool) :
  In v Settings.seed -> In (k, w, enc) Settings.seed ->
  has_key k (Settings.new_row e v) = true -> v = (k, w, enc).
Proof.
  simpl. intros Iv Ik H.
  destruct Iv as [<- | [<- | [<- | []]]];
    destruct Ik as [Ek | [Ek | [Ek | []]]];
    injection Ek as <- <- <-; (reflexivity || discriminate H).
Qed.

(** X14.  The migration's settings seed always succeeds, and afterwards each of
    its keys is there: a key that was missing holds the seed's value and
    flag, stamped with CURRENT_TIMESTAMP. *)
Theorem seed_settings_provides_defaults (e : env) (d : db)
    (k v : string) (enc : bool) :
  In (k, v, enc) Settings.seed ->
  exists d',
    exec e migration_seed_settings d = Ok d'
    /\ exists r,
         Settings.find_by_key k (settings d') = Some r
         /\ (Settings.find_by_key k (settings d) = None ->
             r = Settings.new_row e (k, v, enc)).
Proof.
  intro Ik. pose proof (settings_seed_checked e) as F.
  rewrite Forall_forall in F.
  destruct (do_nothing_total Settings.check Settings.conflicts
              (map (Settings.new_row e) Settings.seed) (settings d))
    as (rows' & E).
  { intros r I. apply in_map_iff in I. destruct I as (w & <- & Iw). eauto. }
  exists (with_settings d rows'). split.
  { unfold migration_seed_settings, exec. now rewrite E. }
  apply do_nothing_present in E.
  - destruct E as ((new & -> & Fnew) & Hall).
    destruct (Hall (Settings.new_row e (k, v, enc))) as (r' & C & X).
    { apply in_map_iff. eauto. }
    rewrite (F _ Ik) in C. injection C as <-.
    apply existsb_find in X. destruct X as (r & Hr).
    exists r. split; [exact Hr|]. intro Missing.
    unfold Settings.find_by_key in *. simpl in Hr.
    rewrite (find_app_missing _ _ _ Missing) in Hr.
    apply find_some in Hr. destruct Hr as [Inew Kr].
    rewrite Forall_forall in Fnew.
    destruct (Fnew r Inew) as (r0 & I0 & C0).
    apply in_map_iff in I0. destruct I0 as (w & <- & Iw).
    rewrite (F _ Iw) in C0. injection C0 as <-.
    now rewrite (settings_seed_keys e w k v enc Iw Ik Kr).
  - intros r r' C. apply settings_check_fixed, stored_setting_columns in C.
    destruct C as (Kn & _). unfold Settings.conflicts.
    destruct (Settings.key r'); [|congruence]. simpl. apply String.eqb_refl.
Qed.

Lemma seed_settings_provides_defaults_witness :
  exists d',
    exec Samples.e0 migration_seed_settings (empty_db true) = Ok d'
    /\ exists r,
         Settings.find_by_key "llm_model" (settings d') = Some r
         /\ (Settings.find_by_key "llm_model" (settings (empty_db true))
             = None ->
             r = Settings.new_row Samples.e0
                   ("llm_model", "gemini-2.0-flash", false)).
Proof.
  apply (seed_settings_provides_defaults Samples.e0 (empty_db true)
           "llm_model" "gemini-2.0-flash" false).
  right. left. reflexivity.
Defined.

Lemma category_seeds_checked (vs : list (string * option decimal)) :
  In vs category_seeds ->
  Forall (fun v => forall e b n,
            Categories.check (Categories.new_row e b n v)
            = Ok (Categories.new_row e b n v)) vs.
Proof.
  intros [<- | [<- | []]]; repeat constructor.
Qed.

Lemma category_seeds_same_names (vs1 vs2 : list (string * option decimal)) :
  In vs1 category_seeds -> In vs2 category_seeds ->
  map fst vs1 = map fst vs2.
Proof.
  intros [<- | [<- | []]] [<- | [<- | []]]; reflexivity.
Qed.

Lemma new_rows_In (e : env) (b : bool) (n : nat)
    (vs : list (string * option decimal)) (r : Categories.row) :
  In r (Categories.new_rows e b n vs) ->
  exists m v, In v vs /\ r = Categories.new_row e b m v.
Proof.
  revert n. induction vs as [|v vs IH]; simpl; intros n I; [tauto|].
  destruct I as [<-|I]; [eauto|].
  destruct (IH _ I) as (m & w & Iw & ->). eauto.
Qed.

Lemma new_rows_has (e : env) (b : bool) (n : nat)
    (vs : list (string * option decimal)) (v : string * option decimal) :
  In v vs -> exists m, In (Categories.new_row e b m v)
                          (Categories.new_rows e b n vs).
Proof.
  revert n. induction vs as [|w vs IH]; simpl; intros n I; [tauto|].
  destruct I as [->|I]; [eauto|].
  destruct (IH (S n) I) as (m & Im). eauto.
Qed.

(** X15.  Once one of the two category seeds has run, running either of them
    (again, or the other script's) succeeds and changes nothing: the budget
    limits are those of the script that ran first. *)
Theorem seed_after_seed (e1 e2 : env)
    (vs1 vs2 : list (string * option decimal)) (d d1 : db) :
  In vs1 category_seeds -> In vs2 category_seeds ->
  exec e1 (INSERT_categories_DO_NOTHING vs1) d = Ok d1 ->
  exec e2 (INSERT_categories_DO_NOTHING vs2) d1 = Ok d1.
Proof.
  intros I1 I2 H. simpl in H. unbind H. injection H as <-. simpl.
  pose proof (category_seeds_checked vs1 I1) as F1.
  pose proof (category_seeds_checked vs2 I2) as F2.
  rewrite Forall_forall in F1, F2.
  apply do_nothing_present in E.
  - destruct E as (_ & Hall).
    rewrite (do_nothing_noop _ _ _ _ a); [reflexivity|].
    intros r2 Ir2. apply new_rows_In in Ir2.
    destruct Ir2 as (m2 & v2 & Iv2 & ->).
    exists (Categories.new_row e2 (categories_has_updated_at d) m2 v2).
    split; [apply F2, Iv2|].
    assert (Iv1 : exists v1, In v1 vs1 /\ fst v1 = fst v2).
    { assert (In (fst v2) (map fst vs1)).
      { rewrite (category_seeds_same_names vs1 vs2 I1 I2).
        now apply in_map. }
      apply in_map_iff in H. destruct H as (v1 & Hv1 & Iv1). eauto. }
    destruct Iv1 as (v1 & Iv1 & Hn).
    destruct (new_rows_has e1 (categories_has_updated_at d) 0 vs1 v1 Iv1)
      as (m1 & Im1).
    destruct (Hall _ Im1) as (r' & C & X).
    rewrite (F1 _ Iv1) in C. injection C as <-.
    unfold Categories.same_name in *. simpl in *. now rewrite <- Hn.
  - intros r r' C.
    apply categories_check_fixed, stored_category_columns in C.
    destruct C as (_ & Nn & _). unfold Categories.same_name.
    destruct (Categories.name r'); [|congruence]. simpl.
    apply String.eqb_refl.
Qed.

Lemma seed_after_seed_witness :
  exec Samples.e1 migration_seed_categories
       (run Samples.e0 init_sql_seed (empty_db false))
  = Ok (run Samples.e0 init_sql_seed (empty_db false)).
Proof.
  apply (seed_after_seed Samples.e0 Samples.e1 Categories.init_seed
           Categories.migration_seed (empty_db false)).
  - left. reflexivity.
  - right. left. reflexivity.
  - reflexivity.
Defined.

Lemma categories_unique_by_columns (rs : list Categories.row) :
  NoDup (map Categories.id rs) -> NoDup (map Categories.name rs) ->
  unique Categories.conflicts rs = true.
Proof.
  induction rs as [|x rest IH]; simpl; intros Ni Nn; [reflexivity|].
  inversion Ni as [|? ? Xi Ri]; inversion Nn as [|? ? Xn Rn]; subst.
  rewrite (IH Ri Rn), andb_true_r. apply negb_true_iff.
  destruct (existsb (Categories.conflicts x) rest) eqn:X; [|reflexivity].
  exfalso. apply existsb_exists in X. destruct X as (y & Iy & Cy).
  unfold Categories.conflicts, Categories.same_name in Cy.
  apply orb_prop in Cy. destruct Cy as [Cy|Cy].
  - apply same_uuid_eq in Cy. destruct Cy as (i & Hx & Hy).
    apply Xi. rewrite Hx, <- Hy. now apply in_map.
  - apply same_string_eq in Cy. destruct Cy as (s & Hx & Hy).
    apply Xn. rewrite Hx, <- Hy. now apply in_map.
Qed.

Lemma new_rows_ids (e : env) (b : bool) (n : nat)
    (vs : list (string * option decimal)) :
  map Categories.id (Categories.new_rows e b n vs)
  = map Some (map (uuid_generate_v4 e) (seq n (List.length vs))).
Proof.
  revert n. induction vs as [|v vs IH]; simpl; intro n; [reflexivity|].
  now rewrite IH.
Qed.

Lemma new_rows_names (e : env) (b : bool) (n : nat)
    (vs : list (string * option decimal)) :
  map Categories.name (Categories.new_rows e b n vs)
  = map Some (map fst vs).
Proof.
  revert n. induction vs as [|v vs IH]; simpl; intro n; [reflexivity|].
  now rewrite IH.
Qed.

Lemma NoDup_map_Some {A : Type} (l : list A) :
  NoDup l -> NoDup (map Some l).
Proof.
  induction 1 as [|x l Hx _ IH]; simpl; constructor; [|exact IH].
  intro I. apply in_map_iff in I. destruct I as (y & Hy & Iy).
  injection Hy as ->. contradiction.
Qed.

Lemma category_seed_names_distinct (vs : list (string * option decimal)) :
  In vs category_seeds -> NoDup (map fst vs).
Proof.
  intros [<- | [<- | []]]; simpl;
    repeat (constructor; [simpl; intuition discriminate|]); constructor.
Qed.

(** X16.  On a store without categories either seed succeeds, provided the ids
    generated for its rows are pairwise distinct, and the table then holds
    exactly the listed categories, in order, each with the listed budget
    limit. *)
Theorem seed_fresh_categories (e : env)
    (vs : list (string * option decimal)) (d : db) :
  In vs category_seeds ->
  categories d = [] ->
  NoDup (map (uuid_generate_v4 e) (seq 0 (List.length vs))) ->
  exec e (INSERT_categories_DO_NOTHING vs) d
  = Ok (with_categories d
          (Categories.new_rows e (categories_has_updated_at d) 0 vs))
  /\ map Categories.name
         (Categories.new_rows e (categories_has_updated_at d) 0 vs)
     = map Some (map fst vs)
  /\ map Categories.monthly_budget_limit
         (Categories.new_rows e (categories_has_updated_at d) 0 vs)
     = map snd vs.
Proof.
  intros I Empty N. split; [|split].
  - simpl. rewrite Empty.
    rewrite (do_nothing_all_new Categories.check Categories.conflicts
               Categories.same_name _ []); [reflexivity| | | |].
    + exact categories_conflicts_sym.
    + intros a b H. unfold Categories.conflicts. rewrite H.
      apply orb_true_r.
    + pose proof (category_seeds_checked vs I) as F.
      apply Forall_forall. intros r Ir. apply new_rows_In in Ir.
      destruct Ir as (m & v & Iv & ->).
      rewrite Forall_forall in F. apply F, Iv.
    + simpl. apply categories_unique_by_columns.
      * rewrite new_rows_ids. now apply NoDup_map_Some.
      * rewrite new_rows_names. apply NoDup_map_Some.
        now apply category_seed_names_distinct.
  - apply new_rows_names.
  - clear. generalize 0%nat.
    induction vs as [|v vs IH]; simpl; intro n; [reflexivity|].
    now rewrite IH.
Qed.

Lemma seed_fresh_categories_witness :
  exec Samples.e0 init_sql_seed (empty_db false)
  = Ok (with_categories (empty_db false)
          (Categories.new_rows Samples.e0 false 0 Categories.init_seed))
  /\ map Categories.name
         (Categories.new_rows Samples.e0 false 0 Categories.init_seed)
     = map Some (map fst Categories.init_seed)
  /\ map Categories.monthly_budget_limit
         (Categories.new_rows Samples.e0 false 0 Categories.init_seed)
     = map snd Categories.init_seed.
Proof.
  apply (seed_fresh_categories Samples.e0 Categories.init_seed
           (empty_db false)).
  - left. reflexivity.
  - reflexivity.
  - simpl. repeat (constructor; [simpl; intuition discriminate|]).
    constructor.
Defined.

Lemma unique_weaken {row : Type} (c1 c2 : row -> row -> bool)
    (rows : list row) :
  (forall a b, c1 a b = true -> c2 a b = true) ->
  unique c2 rows = true -> unique c1 rows = true.
Proof.
  intro Hc. induction rows as [|x rest IH]; simpl; intro U; [reflexivity|].
  apply andb_prop in U. destruct U as [U1 U2].
  rewrite (IH U2), andb_true_r. apply negb_true_iff in U1.
  apply negb_true_iff.
  destruct (existsb (c1 x) rest) eqn:X; [|reflexivity].
  apply existsb_exists in X. destruct X as (y & Iy & Cy).
  apply Hc in Cy. rewrite (existsb_false_In _ _ _ U1 Iy) in Cy.
  discriminate Cy.
Qed.

Lemma settings_keys_NoDup (rows : list Settings.row) :
  unique Settings.conflicts rows = true ->
  Forall (fun r => Settings.key r <> None) rows ->
  NoDup (map Settings.key rows).
Proof.
  induction rows as [|x rest IH]; simpl; intros U F; [constructor|].
  apply andb_prop in U. destruct U as [U1 U2].
  inversion F as [|? ? Fx Frest]; subst.
  constructor; [|auto].
  intro I. apply in_map_iff in I. destruct I as (y & Ky & Iy).
  apply negb_true_iff in U1.
  pose proof (existsb_false_In _ _ _ U1 Iy) as C. simpl in C.
  unfold Settings.conflicts in C.
  destruct (Settings.key x) as [s|] eqn:Kx; [|congruence].
  rewrite Ky in C. simpl in C. rewrite String.eqb_refl in C. discriminate.
Qed.

(** X9.  The unique constraints of the two configuration tables hold whatever
    statements ran, an UPDATE of categories included: no two categories
    share a name or an id, and no two settings share a key. *)
Theorem names_and_keys_unique (d : db) :
  reachable d ->
  names_unique d
  /\ NoDup (map Categories.id (categories d))
  /\ NoDup (map Settings.key (settings d)).
Proof.
  intro R. pose proof (reachable_wf d R) as W.
  split; [now apply wf_names_unique|]. split.
  - apply unique_NoDup.
    + apply (unique_weaken _ Categories.conflicts);
        [|exact (wf_categories_unique d W)].
      intros a b H. unfold Categories.conflicts. now rewrite H.
    + eapply Forall_impl; [|apply (wf_categories d W)].
      intros r S. apply stored_category_columns in S. apply S.
  - apply settings_keys_NoDup; [exact (wf_settings_pk d W)|].
    eapply Forall_impl; [|apply (wf_settings d W)].
    intros r S. apply stored_setting_columns in S. apply S.
Qed.

Lemma samples_themed_reachable : reachable Samples.themed.
Proof. do 2 apply run_reachable. apply reach_empty. Qed.

Lemma names_and_keys_unique_witness :
  reachable Samples.themed
  /\ names_unique Samples.themed
  /\ NoDup (map Categories.id (categories Samples.themed))
  /\ NoDup (map Settings.key (settings Samples.themed)).
Proof.
  split; [exact samples_themed_reachable|].
  apply (names_and_keys_unique Samples.themed).
  exact samples_themed_reachable.
Defined.

(** ** The dropzone *)

Import Dropzone.

(** C5, as stated, fails: a text file dropped on the idle dropzone is
    rejected, and all that happens is a console warning; neither callback of
    the props is called. *)
Lemma rejected_drop_reaches_no_callback :
  snd (setFiles (options Samples.idle) [Samples.notes_txt])
  = [reject file_invalid_type Samples.notes_txt]
  /\ drop Samples.mime_types Samples.idle [Samples.notes_txt]
     = [console_warn "File rejected:" [file_invalid_type]]
  /\ ~ reported_to_caller
         (drop Samples.mime_types Samples.idle [Samples.notes_txt]).
Proof.
  split; [reflexivity|]. split; [reflexivity|].
  intros (ef & [<-|[]] & C). discriminate.
Qed.

(** C5, amended.  When a drop has rejected files, [onDrop] does what it
    does for the accepted files alone and then writes the errors of the
    first rejection to the console; the calls that reach the caller are the
    same as if nothing had been rejected. *)
Theorem rejection_only_logged (acceptedFiles : list File)
    (rejectedFiles rest : list FileRejection) (r : FileRejection) :
  rejectedFiles = r :: rest ->
  onDrop acceptedFiles rejectedFiles
  = onDrop acceptedFiles [] ++ [console_warn "File rejected:" (errors r)]
  /\ filter to_caller (onDrop acceptedFiles rejectedFiles)
     = filter to_caller (onDrop acceptedFiles []).
Proof.
  intros ->. unfold onDrop. simpl. rewrite app_nil_r.
  split; [reflexivity|].
  rewrite filter_app. simpl. now rewrite app_nil_r.
Qed.

Lemma rejection_only_logged_witness :
  onDrop [Samples.receipt_jpg] [reject file_invalid_type Samples.notes_txt]
  = [onFileSelect Samples.receipt_jpg;
     console_warn "File rejected:" [file_invalid_type]]
  /\ filter to_caller
       (onDrop [Samples.receipt_jpg]
               [reject file_invalid_type Samples.notes_txt])
     = [onFileSelect Samples.receipt_jpg].
Proof.
  apply (rejection_only_logged [Samples.receipt_jpg]
           [reject file_invalid_type Samples.notes_txt] []
           (reject file_invalid_type Samples.notes_txt)).
  reflexivity.
Defined.

(** [onFileRemove] is the remove button's business, never a drop's. *)
Lemma onDrop_never_removes (acceptedFiles : list File)
    (rejectedFiles : list FileRejection) :
  ~ In onFileRemove (onDrop acceptedFiles rejectedFiles).
Proof.
  unfold onDrop. intro I. apply in_app_or in I.
  destruct acceptedFiles, rejectedFiles; simpl in I;
    repeat (destruct I as [I|I]; try discriminate I; try contradiction).
Qed.

Lemma onClick_remove_holding :
  onClick_remove Samples.holding = [onFileRemove].
Proof. reflexivity. Qed.

Lemma onDrop_selected (acceptedFiles : list File)
    (rejectedFiles : list FileRejection) :
  selected (onDrop acceptedFiles rejectedFiles) = firstn 1 acceptedFiles.
Proof.
  unfold onDrop, selected. rewrite flat_map_app.
  destruct acceptedFiles as [|f fs], rejectedFiles as [|r rs]; reflexivity.
Qed.

Lemma fileAccepted_spec (p : ReceiptDropzoneProps) (f : File) :
  fileAccepted (options p) f = true <-> type_accepted f.
Proof.
  unfold fileAccepted, accepts, acceptAttr, type_accepted, allowed_types.
  simpl. rewrite !orb_false_r. split.
  - intro H.
    repeat (apply orb_prop in H; destruct H as [H|H]);
      apply String.eqb_eq in H; rewrite H; simpl; auto.
  - intros [[H | [H | [H | []]]] | H]; rewrite <- H;
      rewrite ?String.eqb_refl, ?orb_true_r; reflexivity.
Qed.

Lemma fromEvent_In (table : string -> option string) (files : list File)
    (f : File) :
  In f (fromEvent table files) ->
  exists f0, In f0 files /\ f = withMimeType table f0.
Proof.
  unfold fromEvent. intro I. apply filter_In in I. destruct I as [I _].
  apply in_map_iff in I. destruct I as (f0 & <- & I0). eauto.
Qed.

(** C6, as stated, fails: a file whose type is none of the three is
    accepted when it carries the placeholder type of old Firefox versions,
    which react-dropzone lets through whatever the accept list. *)
Lemma placeholder_type_is_accepted :
  drop Samples.mime_types Samples.idle [Samples.setup_exe]
  = [onFileSelect Samples.setup_exe]
  /\ ~ In (type Samples.setup_exe) allowed_types.
Proof.
  split; [reflexivity|].
  simpl. intros [H | [H | [H | []]]]; discriminate H.
Qed.

Lemma drop_selected (table : string -> option string)
    (p : ReceiptDropzoneProps) (files : list File) :
  selected (drop table p files)
  = if opt_disabled (options p) then []
    else match filter (fileAccepted (options p)) (fromEvent table files) with
         | [f] => [f]
         | _ => []
         end.
Proof.
  unfold drop. destruct (opt_disabled (options p)); [reflexivity|].
  unfold setFiles.
  destruct (filter (fileAccepted (options p)) (fromEvent table files))
    as [|a [|b l]];
    cbn [options multiple maxFiles negb andb orb List.length Nat.ltb Nat.leb];
    rewrite onDrop_selected; reflexivity.
Qed.

(** C6, amended.  Whatever is dropped: a file handed to [onFileSelect] is
    one of the dropped files, with the type its extension stands for if it
    came with none, and that type is one of the three of the accept list or
    the Firefox placeholder; it is the only acceptable file of the drop, so
    at most one file is handed over, and none when two or more are
    acceptable; [onDrop] hands over the first accepted file and no other;
    while a file is selected a drop does nothing at all. *)
Theorem one_file_per_drop (table : string -> option string)
    (p : ReceiptDropzoneProps) (files : list File) :
  (forall f, In f (selected (drop table p files)) ->
             (exists f0, In f0 files /\ f = withMimeType table f0)
             /\ type_accepted f
             /\ filter (fileAccepted (options p)) (fromEvent table files)
                = [f])
  /\ (List.length (selected (drop table p files)) <= 1)%nat
  /\ (forall acceptedFiles rejectedFiles,
        selected (onDrop acceptedFiles rejectedFiles)
        = firstn 1 acceptedFiles)
  /\ (selectedFile p <> None -> drop table p files = []).
Proof.
  split; [|split; [|split]].
  - intros f I. rewrite drop_selected in I.
    destruct (opt_disabled (options p)); [destruct I|].
    destruct (filter (fileAccepted (options p)) (fromEvent table files))
      as [|a [|b l]] eqn:F; [destruct I| |destruct I].
    destruct I as [I | []]. subst a.
    assert (A : In f (filter (fileAccepted (options p))
                             (fromEvent table files)))
      by (rewrite F; left; reflexivity).
    apply filter_In in A. destruct A as [A1 A2].
    split; [now apply fromEvent_In|].
    split; [now apply (fileAccepted_spec p)|reflexivity].
  - rewrite drop_selected. destruct (opt_disabled (options p)); [simpl; lia|].
    destruct (filter (fileAccepted (options p)) (fromEvent table files))
      as [|a [|b l]]; simpl; lia.
  - apply onDrop_selected.
  - intro N. unfold drop, options. simpl.
    destruct (selectedFile p); [|congruence].
    simpl. now rewrite orb_true_r.
Qed.

Lemma one_file_per_drop_witness :
  (forall f, In f (selected (drop Samples.mime_types Samples.idle
                              [Samples.notes_txt; Samples.scan_pdf])) ->
             (exists f0, In f0 [Samples.notes_txt; Samples.scan_pdf]
                         /\ f = withMimeType Samples.mime_types f0)
             /\ type_accepted f
             /\ filter (fileAccepted (options Samples.idle))
                       (fromEvent Samples.mime_types
                          [Samples.notes_txt; Samples.scan_pdf])
                = [f])
  /\ selected (drop Samples.mime_types Samples.idle
                 [Samples.notes_txt; Samples.scan_pdf])
     = [ {| name := "scan.PDF"; type := "application/pdf"; size := 88000 |} ]
  /\ selected (drop Samples.mime_types Samples.idle
                 [Samples.two_pages_pdf; Samples.receipt_jpg]) = []
  /\ drop Samples.mime_types Samples.holding [Samples.two_pages_pdf] = [].
Proof.
  destruct (one_file_per_drop Samples.mime_types Samples.idle
              [Samples.notes_txt; Samples.scan_pdf]) as (H1 & _).
  destruct (one_file_per_drop Samples.mime_types Samples.holding
              [Samples.two_pages_pdf]) as (_ & _ & _ & H4).
  split; [exact H1|]. split; [reflexivity|]. split; [reflexivity|].
  apply H4. discriminate.
Defined.

(** ** [formatFileSize] *)

Example formatFileSize_samples :
  map formatFileSize
      [1; 1023; 1024; 1536; 1048575; 5 * 1024 * 1024 + 52429; 1073741824]
  = ["1 Bytes"; "1023 Bytes"; "1 KB"; "1.5 KB"; "1024 KB"; "5.05 MB";
     "1 GB"].
Proof. vm_compute. reflexivity. Qed.

Lemma formatFileSize_zero : formatFileSize 0 = "0 Bytes".
Proof. reflexivity. Qed.

(** [toFixed2] is the nearest number of hundredths. *)
Lemma toFixed2_nearest (num den : Z) :
  0 < den ->
  2 * den * toFixed2 num den <= 200 * num + den
                             < 2 * den * (toFixed2 num den + 1).
Proof.
  intro D. unfold toFixed2.
  pose proof (Z.mul_div_le (200 * num + den) (2 * den)).
  pose proof (Z.mul_succ_div_gt (200 * num + den) (2 * den)).
  lia.
Qed.

(** X20.  Below one tebibyte the formatter is as it should be: the size scaled
    by the power of 1024 it lies above, with the unit of that power. *)
Lemma formatFileSize_below_tebibyte (bytes : Z) :
  0 < bytes < k ^ 4 ->
  exists i u,
    0 <= i <= 3
    /\ nth_error sizes (Z.to_nat i) = Some u
    /\ k ^ i <= bytes < k ^ (i + 1)
    /\ formatFileSize bytes
       = String.append (number_to_string (toFixed2 bytes (k ^ i)))
                       (String.append " " u).
Proof.
  intros [Pos Lt]. unfold formatFileSize.
  destruct (Z.eqb_spec bytes 0) as [|_]; [lia|].
  destruct (Z.ltb_spec bytes 0) as [|_]; [lia|].
  pose proof (Z.log2_spec bytes Pos) as [Lo Hi].
  assert (L : 0 <= Z.log2 bytes < 40).
  { split; [apply Z.log2_nonneg|].
    apply Z.log2_lt_pow2; [exact Pos|]. exact Lt. }
  set (i := Z.log2 bytes / 10).
  assert (Hi10 : 10 * i <= Z.log2 bytes < 10 * i + 10).
  { unfold i. pose proof (Z.div_mod (Z.log2 bytes) 10).
    pose proof (Z.mod_pos_bound (Z.log2 bytes) 10). lia. }
  assert (Ri : 0 <= i <= 3) by lia.
  assert (P : forall j, 0 <= j -> k ^ j = 2 ^ (10 * j)).
  { intros j Hj. unfold k. change 1024 with (2 ^ 10).
    rewrite <- Z.pow_mul_r; [reflexivity|lia|exact Hj]. }
  assert (B : k ^ i <= bytes < k ^ (i + 1)).
  { rewrite !P by lia. split.
    - eapply Z.le_trans; [|exact Lo]. apply Z.pow_le_mono_r; lia.
    - eapply Z.lt_le_trans; [exact Hi|]. apply Z.pow_le_mono_r; lia. }
  assert (C : i = 0 \/ i = 1 \/ i = 2 \/ i = 3) by lia.
  exists i, (unit_at i). split; [exact Ri|].
  split; [|split; [exact B|reflexivity]].
  destruct C as [H | [H | [H | H]]]; rewrite H; reflexivity.
Qed.

(** C10.  The formatter at 0 and at two tebibytes: [i] is 4 there,
    [sizes[4]] is [undefined], and the string carries no unit of the
    list. *)
Theorem formatFileSize_two_tebibytes :
  formatFileSize 0 = "0 Bytes"
  /\ formatFileSize (2 * 1024 ^ 4) = "2 undefined"
  /\ ~ exists u, In u sizes
                 /\ formatFileSize (2 * 1024 ^ 4)
                    = String.append "2" (String.append " " u).
Proof.
  split; [reflexivity|]. split; [vm_compute; reflexivity|].
  intros (u & I & H).
  assert (E : formatFileSize (2 * 1024 ^ 4) = "2 undefined")
    by (vm_compute; reflexivity).
  rewrite E in H. simpl in I.
  destruct I as [<- | [<- | [<- | [<- | []]]]]; discriminate.
Qed.

(** ** What a drop does, case by case *)

Lemma enabled_options (p : ReceiptDropzoneProps) :
  enabled p -> opt_disabled (options p) = false.
Proof.
  intros [S D]. unfold options. simpl. rewrite S. simpl.
  destruct (disabled p) as [[|]|]; [congruence|reflexivity|reflexivity].
Qed.

Lemma fileAccepted_other (p : ReceiptDropzoneProps) (f : File) :
  ~ type_accepted f -> fileAccepted (options p) f = false.
Proof.
  intro N. destruct (fileAccepted (options p) f) eqn:A; [|reflexivity].
  exfalso. apply N. now apply (fileAccepted_spec p).
Qed.

Lemma withMimeType_name (table : string -> option string) (f : File) :
  name (withMimeType table f) = name f.
Proof.
  unfold withMimeType. destruct (after_last_dot (name f)); [|reflexivity].
  destruct (String.eqb (type f) EmptyString); [|reflexivity].
  destruct (table (toLowerCase s)); reflexivity.
Qed.

Lemma withMimeType_ignored (table : string -> option string) (f : File) :
  ignored (withMimeType table f) = ignored f.
Proof. unfold ignored. now rewrite withMimeType_name. Qed.

Lemma fromEvent_one (table : string -> option string) (f : File) :
  fromEvent table [f]
  = if ignored f then [] else [withMimeType table f].
Proof.
  unfold fromEvent. simpl. rewrite withMimeType_ignored.
  destruct (ignored f); reflexivity.
Qed.

Lemma fromEvent_nothing (table : string -> option string)
    (files : list File) :
  fromEvent table files = [] <-> Forall (fun f => ignored f = true) files.
Proof.
  unfold fromEvent. induction files as [|f rest IH]; simpl.
  - split; auto.
  - rewrite withMimeType_ignored. destruct (ignored f) eqn:I; simpl.
    + rewrite IH. split; [now constructor|]. intro H. now inversion H.
    + split; [discriminate|]. intro H. inversion H. congruence.
Qed.

(** X17.  One file dropped on a dropzone that takes drops.  A thumbnail cache
    ([.DS_Store], [Thumbs.db]) is left out and nothing happens.  Any other
    file is first given the type of its extension if it came with none;
    with a type of the accept list (or the Firefox placeholder) it is
    handed to [onFileSelect] and nothing else happens, with any other type
    the only effect is the console warning, with the invalid-type error. *)
Theorem drop_single_file (table : string -> option string)
    (p : ReceiptDropzoneProps) (f : File) :
  enabled p ->
  (ignored f = true -> drop table p [f] = [])
  /\ (ignored f = false -> type_accepted (withMimeType table f) ->
      drop table p [f] = [onFileSelect (withMimeType table f)])
  /\ (ignored f = false -> ~ type_accepted (withMimeType table f) ->
      drop table p [f]
      = [console_warn "File rejected:" [file_invalid_type]]).
Proof.
  intro E. unfold drop. rewrite (enabled_options p E).
  rewrite fromEvent_one. unfold setFiles.
  split; [|split]; intro I; rewrite I.
  - reflexivity.
  - intro T. apply (fileAccepted_spec p) in T.
    simpl filter. rewrite T. reflexivity.
  - intro T. simpl filter. rewrite (fileAccepted_other p _ T). reflexivity.
Qed.

Lemma drop_single_file_witness :
  drop Samples.mime_types Samples.idle [Samples.scan_pdf]
  = [onFileSelect
       {| name := "scan.PDF"; type := "application/pdf"; size := 88000 |}]
  /\ drop Samples.mime_types Samples.idle [Samples.notes_txt]
     = [console_warn "File rejected:" [file_invalid_type]].
Proof.
  assert (E : enabled Samples.idle) by (split; [reflexivity|discriminate]).
  destruct (drop_single_file Samples.mime_types Samples.idle
              Samples.scan_pdf E) as (_ & H1 & _).
  destruct (drop_single_file Samples.mime_types Samples.idle
              Samples.notes_txt E) as (_ & _ & H2).
  split.
  - apply H1; [reflexivity|]. left. right. right. left. reflexivity.
  - apply H2; [reflexivity|]. unfold type_accepted. simpl.
    intuition discriminate.
Defined.

(** X18.  Two or more acceptable files among those read from one drop: none
    of them is selected, and the only effect is one console warning, which
    shows the error of the first rejection: the invalid type of a file that
    is not acceptable if there is one, and too many files otherwise. *)
Theorem drop_too_many_files (table : string -> option string)
    (p : ReceiptDropzoneProps) (files : list File) :
  enabled p ->
  (2 <= List.length (filter (fileAccepted (options p))
                            (fromEvent table files)))%nat ->
  selected (drop table p files) = []
  /\ drop table p files
     = [console_warn "File rejected:"
          [if forallb (fileAccepted (options p)) (fromEvent table files)
           then too_many_files else file_invalid_type]].
Proof.
  intros E L. unfold drop. rewrite (enabled_options p E).
  unfold setFiles.
  set (fs := fromEvent table files) in *.
  assert (R : filter (fun f => negb (fileAccepted (options p) f)) fs = []
              <-> forallb (fileAccepted (options p)) fs = true).
  { clearbody fs. clear L. induction fs as [|f rest IH]; simpl.
    - split; auto.
    - destruct (fileAccepted (options p) f); simpl.
      + exact IH.
      + split; discriminate. }
  destruct (filter (fileAccepted (options p)) fs) as [|a [|b l]] eqn:F;
    simpl in L; try lia.
  destruct (filter (fun f => negb (fileAccepted (options p) f)) fs)
    as [|r rs]; simpl.
  - destruct R as [R _]. rewrite (R eq_refl). split; reflexivity.
  - destruct (forallb (fileAccepted (options p)) fs).
    + destruct R as [_ R]. discriminate (R eq_refl).
    + split; reflexivity.
Qed.

Lemma drop_too_many_files_witness :
  selected (drop Samples.mime_types Samples.idle
              [Samples.two_pages_pdf; Samples.scan_pdf]) = []
  /\ drop Samples.mime_types Samples.idle
       [Samples.two_pages_pdf; Samples.scan_pdf]
     = [console_warn "File rejected:" [too_many_files]].
Proof.
  apply (drop_too_many_files Samples.mime_types Samples.idle
           [Samples.two_pages_pdf; Samples.scan_pdf]).
  - split; [reflexivity|discriminate].
  - simpl. lia.
Defined.

Lemma onDrop_nothing (acceptedFiles : list File)
    (rejectedFiles : list FileRejection) :
  onDrop acceptedFiles rejectedFiles = [] ->
  acceptedFiles = [] /\ rejectedFiles = [].
Proof.
  unfold onDrop. destruct acceptedFiles, rejectedFiles; simpl;
    intro H; try discriminate H. auto.
Qed.

(** X19.  A drop has no effect at all exactly when the dropzone is disabled (by
    its prop or because a file is selected) or every dropped file is a
    thumbnail cache, which covers the drop of no file: an enabled dropzone
    answers any other drop with a selection or a warning. *)
Theorem drop_silent_iff (table : string -> option string)
    (p : ReceiptDropzoneProps) (files : list File) :
  drop table p files = []
  <-> opt_disabled (options p) = true
      \/ Forall (fun f => ignored f = true) files.
Proof.
  rewrite <- (fromEvent_nothing table).
  unfold drop. destruct (opt_disabled (options p)) eqn:D.
  - split; auto.
  - split.
    + intro H. right.
      destruct (fromEvent table files) as [|f rest]; [reflexivity|].
      exfalso. unfold setFiles in H.
      remember (filter (fileAccepted (options p)) (f :: rest)) as acc
        eqn:Acc.
      remember (filter (fun f0 => negb (fileAccepted (options p) f0))
                       (f :: rest)) as rej eqn:Rej.
      destruct (_ || _) eqn:Many.
      * apply onDrop_nothing in H. destruct H as [_ H].
        apply app_eq_nil in H. destruct H as [_ H].
        apply map_eq_nil in H. rewrite H in Many. discriminate Many.
      * apply onDrop_nothing in H. destruct H as [Ha Hr].
        apply map_eq_nil in Hr. subst acc rej. simpl in Ha, Hr.
        destruct (fileAccepted (options p) f); simpl in *; discriminate.
    + intros [H | H]; [discriminate H|]. rewrite H. reflexivity.
Qed.

(** ** [formatFileSize], range by range *)

Lemma formatFileSize_below_tebibyte_witness :
  exists i u,
    0 <= i <= 3
    /\ nth_error sizes (Z.to_nat i) = Some u
    /\ k ^ i <= 5295309 < k ^ (i + 1)
    /\ formatFileSize 5295309
       = String.append (number_to_string (toFixed2 5295309 (k ^ i)))
                       (String.append " " u).
Proof.
  apply (formatFileSize_below_tebibyte 5295309).
  unfold k. lia.
Defined.

Lemma append_nothing (s : string) : String.append s EmptyString = s.
Proof. induction s as [|c s IH]; simpl; [reflexivity|now rewrite IH]. Qed.

(** X21.  Below 1024 the size is shown as it is, in "Bytes", with no fraction. *)
Theorem formatFileSize_bytes (bytes : Z) :
  0 < bytes < 1024 ->
  formatFileSize bytes = String.append (digits bytes) " Bytes".
Proof.
  intros [Pos Lt]. unfold formatFileSize.
  destruct (Z.eqb_spec bytes 0) as [|_]; [lia|].
  destruct (Z.ltb_spec bytes 0) as [|_]; [lia|].
  assert (L : Z.log2 bytes < 10)
    by (apply Z.log2_lt_pow2; [exact Pos|exact Lt]).
  pose proof (Z.log2_nonneg bytes) as L0.
  assert (I : Z.log2 bytes / 10 = 0) by (apply Z.div_small; lia).
  rewrite I. change (k ^ 0) with 1. change (unit_at 0) with "Bytes".
  assert (T : toFixed2 bytes 1 = 100 * bytes).
  { unfold toFixed2. replace (200 * bytes + 1) with (1 + (100 * bytes) * 2)
      by lia.
    rewrite Z.div_add by lia. reflexivity. }
  rewrite T. unfold number_to_string.
  replace (100 * bytes / 100) with bytes
    by (rewrite Z.mul_comm, Z.div_mul; lia).
  replace ((100 * bytes) mod 100) with 0
    by (rewrite Z.mul_comm, Z.mod_mul; lia).
  simpl. now rewrite append_nothing.
Qed.

Lemma formatFileSize_bytes_witness : formatFileSize 512 = "512 Bytes".
Proof. apply (formatFileSize_bytes 512). lia. Defined.

(** X22.  From one tebibyte up to 512 tebibytes the unit is missing: the
    string is the size in tebibytes, rounded to hundredths, followed by
    " undefined". *)
Theorem formatFileSize_no_unit (bytes : Z) :
  k ^ 4 <= bytes < 2 ^ 49 ->
  formatFileSize bytes
  = String.append (number_to_string (toFixed2 bytes (k ^ 4))) " undefined".
Proof.
  intros [Big Small]. unfold k in Big.
  assert (Pos : 0 < bytes) by lia.
  unfold formatFileSize.
  destruct (Z.eqb_spec bytes 0) as [|_]; [lia|].
  destruct (Z.ltb_spec bytes 0) as [|_]; [lia|].
  assert (L : 40 <= Z.log2 bytes).
  { apply Z.log2_le_pow2; [exact Pos|]. exact Big. }
  assert (U : Z.log2 bytes < 49).
  { apply Z.log2_lt_pow2; [exact Pos|exact Small]. }
  assert (I : Z.log2 bytes / 10 = 4).
  { symmetry. apply (Z.div_unique _ 10 4 (Z.log2 bytes - 40)); lia. }
  rewrite I. reflexivity.
Qed.

Lemma formatFileSize_no_unit_witness :
  formatFileSize (3 * 1024 ^ 4) = "3 undefined".
Proof. apply (formatFileSize_no_unit (3 * 1024 ^ 4)). unfold k. lia. Defined.

(** X23.  For a positive size below 512 tebibytes, [formatFileSize] shows
    the size divided by the largest power of 1024 not above it, rounded to
    hundredths, then the unit of that power; the number shown is never
    below 1 and never above 1024, and 1024 itself is reached just under a
    power of 1024. *)
Theorem formatFileSize_number_range (bytes : Z) :
  0 < bytes < 2 ^ 49 ->
  exists i n,
    0 <= i <= 4
    /\ k ^ i <= bytes < k ^ (i + 1)
    /\ n = toFixed2 bytes (k ^ i)
    /\ formatFileSize bytes
       = String.append (number_to_string n) (String.append " " (unit_at i))
    /\ 100 <= n <= 102400.
Proof.
  intros [Pos Small].
  pose proof (Z.log2_spec bytes Pos) as [Lo Hi].
  pose proof (Z.log2_nonneg bytes) as L0.
  assert (U : Z.log2 bytes < 49).
  { apply Z.log2_lt_pow2; [exact Pos|exact Small]. }
  exists (Z.log2 bytes / 10), (toFixed2 bytes (k ^ (Z.log2 bytes / 10))).
  set (i := Z.log2 bytes / 10).
  assert (Hi10 : 10 * i <= Z.log2 bytes < 10 * i + 10).
  { unfold i. pose proof (Z.div_mod (Z.log2 bytes) 10).
    pose proof (Z.mod_pos_bound (Z.log2 bytes) 10). lia. }
  assert (I0 : 0 <= i) by lia.
  assert (P : forall j, 0 <= j -> k ^ j = 2 ^ (10 * j)).
  { intros j Hj. unfold k. change 1024 with (2 ^ 10).
    rewrite <- Z.pow_mul_r; [reflexivity|lia|exact Hj]. }
  assert (D : 0 < k ^ i) by (apply Z.pow_pos_nonneg; [reflexivity|exact I0]).
  assert (B1 : k ^ i <= bytes).
  { rewrite P by lia. eapply Z.le_trans; [|exact Lo].
    apply Z.pow_le_mono_r; lia. }
  assert (B2 : bytes < k ^ (i + 1)).
  { rewrite P by lia. eapply Z.lt_le_trans; [exact Hi|].
    apply Z.pow_le_mono_r; lia. }
  assert (B3 : k ^ (i + 1) = 1024 * k ^ i)
    by (rewrite Z.pow_add_r by lia; unfold k; lia).
  split; [lia|]. split; [split; assumption|]. split; [reflexivity|].
  split.
  - unfold formatFileSize.
    destruct (Z.eqb_spec bytes 0) as [|_]; [lia|].
    destruct (Z.ltb_spec bytes 0) as [|_]; [lia|].
    reflexivity.
  - unfold toFixed2. split.
    + apply Z.div_le_lower_bound; lia.
    + assert (200 * bytes + k ^ i < 2 * k ^ i * 102401) by lia.
      assert ((200 * bytes + k ^ i) / (2 * k ^ i) < 102401)
        by (apply Z.div_lt_upper_bound; lia).
      lia.
Qed.

Lemma formatFileSize_number_range_witness :
  exists i n,
    0 <= i <= 4
    /\ k ^ i <= 1048575 < k ^ (i + 1)
    /\ n = toFixed2 1048575 (k ^ i)
    /\ formatFileSize 1048575
       = String.append (number_to_string n) (String.append " " (unit_at i))
    /\ 100 <= n <= 102400.
Proof. apply (formatFileSize_number_range 1048575). lia. Defined.
